(** * absolutris: the rendering core of [absolutris.py]

    A shallow embedding of the classes [Rectlist], [Tile] and [Playfield]
    of [src/absolutris.py], of the frame loop's drain of the dirty list in
    [Game.run_game], and of the piece generator described by the
    specification, together with the properties the specification states
    about them.

    Conventions.
    - Python integers are [Z]; lengths and counters that only ever hold
      [0], [len(...)] or sums of those are [nat].
    - Python objects that are mutated in place (the shared [Rectlist], the
      [Tile]s of the grid) live in one explicit state, the [Playfield]
      record; a method is a function from that state to an outcome that
      carries the state reached, also when the method raises.
    - The tiles of a grid are distinct objects, as
      [Game.create_playfield_tiles] yields them: no two cells share a
      [Tile], so a tile is stored by value at its position in the array.
    - Pixels are not modelled: a [pygame.Surface] is its identity, its
      size and its absolute offset.
    - The libraries keep their machine integers: a [pygame.Rect] holds C
      ints, of 32 bits, cut from C longs of 64 bits, and numpy refuses a
      dimension outside its 64 bit index type and an array whose size in
      bytes is. *)

From Stdlib Require Import ZArith Lia.
From stdpp Require Import base list strings.

Set Default Proof Using "Type".

(** ** Exceptions *)

Inductive exn := IndexError | ValueError | TypeError | InvalidPolicy.

(** ** The part of pygame the core relies on *)

Module pygame.

Record Rect := mkRect { left : Z; top : Z; w : Z; h : Z }.

(** A rectangle keeps its coordinates in C ints. *)
Definition int_min : Z := - 2 ^ 31.
Definition int_max : Z := 2 ^ 31 - 1.

(** The C int a C long is cut to. *)
Definition c_int (z : Z) : Z := ((z - int_min) mod 2 ^ 32 + int_min)%Z.

(** The Python integers that convert to a C long, of 64 bits. *)
Definition fits_long (z : Z) : bool := ((- 2 ^ 63 <=? z) && (z <=? 2 ^ 63 - 1))%Z.

(** [pygame.Rect(x, y, w, h)]: each argument is converted to a C long and
    stored as a C int; an argument that has no C long is no rectangle
    style argument. *)
Definition Rect_init (x y w h : Z) : exn + Rect :=
  if fits_long x && fits_long y && fits_long w && fits_long h
  then inr (mkRect (c_int x) (c_int y) (c_int w) (c_int h))
  else inl TypeError.

(** [Rect.move(offset)] *)
Definition move (r : Rect) (off : Z * Z) : Rect :=
  mkRect (left r + off.1) (top r + off.2) (w r) (h r).

(** A surface: an image handle, or a subsurface of the game window. *)
Record Surface := mkSurface {
  sid : nat;
  width : Z;
  height : Z;
  abs_offset : Z * Z
}.

Definition get_abs_offset (s : Surface) : Z * Z := abs_offset s.

Definition get_rect (s : Surface) : Rect := mkRect 0 0 (width s) (height s).

(** [dest.blit(src, (0, 0))]: the rectangle of [dest] that was painted,
    that is [src]'s area clipped to [dest], and a rectangle of no size
    when nothing was painted. *)
Definition blit (dest src : Surface) : Rect :=
  let w := Z.min (width src) (width dest) in
  let h := Z.min (height src) (height dest) in
  if ((w <=? 0) || (h <=? 0))%Z then mkRect 0 0 0 0 else mkRect 0 0 w h.

End pygame.

Import pygame.


(** ** class Rectlist(list) *)

Record Rectlist := mkRectlist {
  items : list Rect;
  max_items : nat;
  added_items : nat
}.

Module Rectlist.

(** [Rectlist()] *)
Definition init : Rectlist := mkRectlist [] 0 0.

Definition len (self : Rectlist) : nat := length (items self).

Definition update_max (self : Rectlist) : Rectlist :=
  if max_items self <? len self
  then mkRectlist (items self) (len self) (added_items self)
  else self.

Definition appendr (item : Rect) (self : Rectlist) : Rectlist :=
  let self := mkRectlist (items self ++ [item]) (max_items self) (added_items self) in
  let self := mkRectlist (items self) (max_items self) (added_items self + 1) in
  update_max self.

Definition extendr (itr : list Rect) (self : Rectlist) : Rectlist :=
  let self := mkRectlist (items self ++ itr) (max_items self) (added_items self) in
  let self := mkRectlist (items self) (max_items self) (added_items self + length itr) in
  update_max self.

Definition reset_max (self : Rectlist) : Rectlist :=
  mkRectlist (items self) 0 (added_items self).

Definition reset_added (self : Rectlist) : Rectlist :=
  mkRectlist (items self) (max_items self) 0.

Definition reset (self : Rectlist) : Rectlist :=
  reset_added (reset_max self).

(** [del self[0]] *)
Definition del_first (self : Rectlist) : exn + Rectlist :=
  match items self with
  | [] => inl IndexError
  | _ :: rest => inr (mkRectlist rest (max_items self) (added_items self))
  end.

(** [for _ in range(n): del self[0]] *)
Fixpoint del_loop (n : nat) (self : Rectlist) : exn + Rectlist :=
  match n with
  | O => inr self
  | S k =>
      match del_first self with
      | inl e => inl e
      | inr self' => del_loop k self'
      end
  end.

(** The drain of [Game.run_game]: the whole list is handed to
    [pygame.display.update], then emptied from the front, one [del] per
    element counted before the loop starts. *)
Definition drain (self : Rectlist) : exn + (list Rect * Rectlist) :=
  let shown := items self in
  match del_loop (len self) self with
  | inl e => inl e
  | inr self' => inr (shown, self')
  end.

(** Appending a batch one rectangle at a time. *)
Definition appendr_each (itr : list Rect) (self : Rectlist) : Rectlist :=
  foldl (fun acc item => appendr item acc) self itr.

(** The operations a frame performs on the tracker between two resets. *)
Inductive op := Append (r : Rect) | Extend (rs : list Rect) | Drain.

Definition step (self : Rectlist) (o : op) : Rectlist :=
  match o with
  | Append r => appendr r self
  | Extend rs => extendr rs self
  | Drain =>
      match drain self with
      | inr (_, self') => self'
      | inl _ => self
      end
  end.

Definition run (self : Rectlist) (os : list op) : Rectlist := foldl step self os.

End Rectlist.

(** ** class Tile *)

Record Tile := mkTile {
  surface : Surface;
  hold : list Surface
}.

Module Tile.

(** [Tile(surface)] *)
Definition init (surface : Surface) : Tile := mkTile surface [].

(** [not bool(self.hold[1:])]: slicing never raises. *)
Definition is_empty (self : Tile) : bool :=
  match drop 1 (hold self) with
  | [] => true
  | _ :: _ => false
  end.

Definition get_rect (self : Tile) : Rect :=
  move (pygame.get_rect (surface self)) (get_abs_offset (surface self)).

End Tile.

(** ** The part of numpy the core relies on

    A two-dimensional object array is its shape and its elements in
    row-major order. *)

Module np.

Record ndarray := mkArray {
  shape : nat * nat;
  data : list Tile
}.

(** Range of numpy's index type on a 64-bit platform. *)
Definition intp_min : Z := - 2 ^ 63.
Definition intp_max : Z := 2 ^ 63 - 1.

Definition fits_intp (n : Z) : bool := ((intp_min <=? n) && (n <=? intp_max))%Z.

(** Bytes per element of an object array: a pointer. *)
Definition itemsize : Z := 8.

(** The shape a reshape to [(rows, columns)] of [size] elements asks for.
    A negative dimension stands for "unknown" and is inferred from the
    size, only one may be unknown, and it cannot be inferred next to a
    zero; otherwise the product of the dimensions must be the size. *)
Definition fix_unknown_dimension (size rows columns : Z) : exn + Z * Z :=
  if (rows <? 0)%Z then
    if (columns <? 0)%Z then inl ValueError
    else if ((columns =? 0) || negb (size mod columns =? 0))%Z then inl ValueError
    else inr ((size / columns)%Z, columns)
  else if (columns <? 0)%Z then
    if ((rows =? 0) || negb (size mod rows =? 0))%Z then inl ValueError
    else inr (rows, (size / rows)%Z)
  else if (rows * columns =? size)%Z
    then inr (rows, columns)
    else inl ValueError.

(** An array is too big when its dimensions, the zeros left out, and the
    element size multiply beyond the index type. *)
Definition too_big (dims : Z * Z) : bool :=
  (intp_max <? itemsize * (Z.max 1 dims.1 * Z.max 1 dims.2))%Z.

(** [np.asarray(l, dtype=object).reshape(rows, columns)].  A dimension
    that does not fit the index type, a shape that does not match the
    size and an array that is too big are each refused with
    [ValueError]. *)
Definition reshape (l : list Tile) (rows columns : Z) : exn + ndarray :=
  if negb (fits_intp rows && fits_intp columns) then inl ValueError
  else
    match fix_unknown_dimension (Z.of_nat (length l)) rows columns with
    | inl e => inl e
    | inr dims =>
        if too_big dims then inl ValueError
        else inr (mkArray (Z.to_nat dims.1, Z.to_nat dims.2) l)
    end.

(** The arrays of [rows] by [columns] numpy can hold. *)
Definition fits_array (rows columns : Z) : Prop :=
  (itemsize * (Z.max 1 rows * Z.max 1 columns) <= intp_max)%Z.

(** One axis of [a[i, j]]: an index in [-n, n) is accepted, a negative
    one counts from the end. *)
Definition axis_index (i : Z) (n : nat) : option nat :=
  if ((i <? - Z.of_nat n) || (Z.of_nat n <=? i))%Z then None
  else if (i <? 0)%Z then Some (Z.to_nat (i + Z.of_nat n))
  else Some (Z.to_nat i).

(** Position of [a[row, column]] in the row-major data, [None] when
    numpy raises [IndexError]. *)
Definition flat_index (a : ndarray) (row column : Z) : option nat :=
  match axis_index row (shape a).1 with
  | None => None
  | Some r =>
      match axis_index column (shape a).2 with
      | None => None
      | Some c => Some (r * (shape a).2 + c)
      end
  end.

(** The arrays numpy builds: as many elements as the shape says. *)
Definition wf (a : ndarray) : Prop :=
  length (data a) = (shape a).1 * (shape a).2.

End np.

Import np.

(** ** Pieces

    Modelled from the spec: module [tetrominoes] is imported by
    [absolutris.py] but its source is not available.  [Playfield.draw_tetromino] iterates over the piece
    to obtain minoes with a [row] and a [column], and reads the piece's
    [spawn_offset] and [img]; a piece is modelled as exactly that data. *)

Record Mino := mkMino { row : Z; column : Z }.

Record Tetromino := mkTetromino {
  minoes : list Mino;
  spawn_offset : Z;
  img : Surface
}.

(** The I piece of the specification's placement example. *)
Definition Tetromino_I (image : Surface) : Tetromino :=
  mkTetromino [mkMino 0 0; mkMino 0 1; mkMino 0 2; mkMino 0 3] 0 image.

(** ** class Playfield *)

Record Playfield := mkPlayfield {
  empty_tile_img : Surface;
  tile_array : ndarray;
  rects_to_update : Rectlist;
  spawn_row : Z;
  spawn_column : Z
}.

(** Outcome of a method: the value returned or the exception raised, and
    in both cases the state the objects are left in. *)
Inductive Res (A : Type) :=
| Val (a : A) (s : Playfield)
| Exc (e : exn) (s : Playfield).
Arguments Val {A} a s.
Arguments Exc {A} e s.

Definition state_of {A} (r : Res A) : Playfield :=
  match r with Val _ s => s | Exc _ s => s end.

Definition M (A : Type) : Type := Playfield -> Res A.

#[global] Instance M_ret : MRet M := fun A a s => Val a s.

#[global] Instance M_bind : MBind M := fun A B f m s =>
  match m s with
  | Val a s' => f a s'
  | Exc e s' => Exc e s'
  end.

(** [for x in xs: body(x)] *)
Fixpoint for_ {A} (xs : list A) (body : A -> M unit) : M unit :=
  match xs with
  | [] => mret tt
  | x :: rest => body x ≫= fun _ => for_ rest body
  end.

(** [range(n)] *)
Definition range (n : nat) : list nat := seq 0 n.

Module Playfield.

(** *** Access to the objects a playfield refers to *)

Definition get_shape : M (nat * nat) := fun self =>
  Val (shape (tile_array self)) self.

Definition get_empty_tile_img : M Surface := fun self =>
  Val (empty_tile_img self) self.

(** [self.tile_array[row, column]]: the position of the tile object. *)
Definition tile_ref (row column : Z) : M nat := fun self =>
  match flat_index (tile_array self) row column with
  | Some i => Val i self
  | None => Exc IndexError self
  end.

(** Reading the tile object at a position. *)
Definition deref (i : nat) : M Tile := fun self =>
  match data (tile_array self) !! i with
  | Some t => Val t self
  | None => Exc IndexError self
  end.

(** Changing the tile object at a position in place. *)
Definition update_tile (i : nat) (f : Tile -> Tile) : M unit := fun self =>
  Val tt (mkPlayfield (empty_tile_img self)
            (mkArray (shape (tile_array self)) (alter f i (data (tile_array self))))
            (rects_to_update self) (spawn_row self) (spawn_column self)).

(** Changing the shared dirty list in place. *)
Definition update_rects (f : Rectlist -> Rectlist) : M unit := fun self =>
  Val tt (mkPlayfield (empty_tile_img self) (tile_array self)
            (f (rects_to_update self)) (spawn_row self) (spawn_column self)).

(** *** The methods *)

Definition blyt (column row : Z) (srf : Surface) : M unit :=
  i ← tile_ref row column;
  t ← deref i;
  let tile_surf := surface t in
  let rect := blit tile_surf srf in
  update_rects (Rectlist.appendr (move rect (get_abs_offset tile_surf)));;
  update_tile i (fun t => mkTile (surface t) (hold t ++ [srf])).

Definition blit_initial_images (img : Surface) : M unit :=
  '(rows, columns) ← get_shape;
  for_ (range rows) (fun row =>
    for_ (range columns) (fun column =>
      blyt (Z.of_nat column) (Z.of_nat row) img)).

(** The body of the two loops of [clear_all_tiles]. *)
Definition clear_tile (row column : nat) : M unit :=
  i ← tile_ref (Z.of_nat row) (Z.of_nat column);
  t ← deref i;
  if negb (Tile.is_empty t) then
    update_tile i (fun t => mkTile (surface t) []);;
    bg ← get_empty_tile_img;
    blyt (Z.of_nat column) (Z.of_nat row) bg
  else mret tt.

Definition clear_all_tiles : M unit :=
  '(rows, columns) ← get_shape;
  for_ (range rows) (fun row =>
    for_ (range columns) (fun column =>
      clear_tile row column)).

Definition draw_tetromino (tetromino : Tetromino) : M unit := fun self =>
  for_ (minoes tetromino) (fun mino =>
    blyt (spawn_column self + column mino)
         (spawn_row self + row mino + spawn_offset tetromino)
         (img tetromino)) self.

(** *** Construction

    [__init__] either returns a playfield, which from then on owns the
    reference to the dirty list, or raises and leaves the dirty list in
    the state given here.  The two spawn attributes are assigned after
    the initial blits in the source; no blit reads them. *)
Inductive InitRes :=
| Constructed (self : Playfield)
| Failed (e : exn) (rects : Rectlist).

Definition init (rows columns : Z) (sequence : list Tile) (img : Surface)
    (rects : Rectlist) (spawn_row spawn_column : Z) : InitRes :=
  match reshape sequence rows columns with
  | inl e => Failed e rects
  | inr arr =>
      let self := mkPlayfield img arr rects spawn_row spawn_column in
      match blit_initial_images img self with
      | Val _ self' => Constructed self'
      | Exc e self' => Failed e (rects_to_update self')
      end
  end.

End Playfield.

(** ** The frame loop's use of the shared dirty list

    [Game.run_game] keeps the reference it gave to the playfield: it
    appends to the list, drains it once per frame and resets its counters
    on every TICK. *)

Module Game.

Definition appendr (r : Rect) : M unit :=
  Playfield.update_rects (Rectlist.appendr r).

(** [pygame.display.update(l)] followed by the deletion loop. *)
Definition drain : M (list Rect) := fun self =>
  match Rectlist.drain (rects_to_update self) with
  | inl e => Exc e self
  | inr (shown, rects) =>
      Val shown (mkPlayfield (empty_tile_img self) (tile_array self) rects
                   (spawn_row self) (spawn_column self))
  end.

Definition tick : M unit :=
  Playfield.update_rects Rectlist.reset.

End Game.

(** ** Reachable playfields *)

Inductive op :=
| OpBlyt (column row : Z) (srf : Surface)
| OpClear
| OpDraw (tetromino : Tetromino)
| OpAppendr (r : Rect)
| OpDrain
| OpTick.

Definition exec (o : op) (self : Playfield) : Playfield :=
  match o with
  | OpBlyt column row srf => state_of (Playfield.blyt column row srf self)
  | OpClear => state_of (Playfield.clear_all_tiles self)
  | OpDraw tetromino => state_of (Playfield.draw_tetromino tetromino self)
  | OpAppendr r => state_of (Game.appendr r self)
  | OpDrain => state_of (Game.drain self)
  | OpTick => state_of (Game.tick self)
  end.

(** The playfields a program can hold: built by [Playfield.init], then
    used through the methods; a method that raised leaves the state it
    had reached. *)
Inductive reachable : Playfield -> Prop :=
| reachable_init rows columns sequence img rects sr sc self :
    Playfield.init rows columns sequence img rects sr sc = Playfield.Constructed self ->
    reachable self
| reachable_exec self o :
    reachable self -> reachable (exec o self).

(** The tile that [self.tile_array[row, column]] denotes, and its hold. *)
Definition tile_at (self : Playfield) (row column : Z) : option Tile :=
  i ← flat_index (tile_array self) row column;
  data (tile_array self) !! i.

Definition hold_at (self : Playfield) (row column : Z) : option (list Surface) :=
  hold <$> tile_at self row column.

(** The holds of all tiles, row by row. *)
Definition holds (self : Playfield) : list (list Surface) :=
  hold <$> data (tile_array self).

(** ** The effect of the methods on one grid cell *)

(** A blit of [srf] onto a tile: the tile afterwards, and the rectangle
    added to the dirty list. *)
Definition tile_blyt (srf : Surface) (t : Tile) : Tile :=
  mkTile (surface t) (hold t ++ [srf]).

Definition rect_blyt (srf : Surface) (t : Tile) : Rect :=
  move (blit (surface t) srf) (get_abs_offset (surface t)).

(** One iteration of the loop of [clear_all_tiles], seen from the tile. *)
Definition tile_clear (bg : Surface) (t : Tile) : Tile :=
  if Tile.is_empty t then t else mkTile (surface t) [bg].

Definition rects_clear (bg : Surface) (t : Tile) (rects : Rectlist) : Rectlist :=
  if Tile.is_empty t then rects else Rectlist.appendr (rect_blyt bg t) rects.

Definition set_cells (cells : list Tile) (rects : Rectlist) (self : Playfield) : Playfield :=
  mkPlayfield (empty_tile_img self) (mkArray (shape (tile_array self)) cells) rects
    (spawn_row self) (spawn_column self).

(** A change of the tile at position [i] by [f], with the dirty list
    changed by [g] of the tile found there. *)
Definition cell_step (f : Tile -> Tile) (g : Tile -> Rectlist -> Rectlist)
    (self : Playfield) (i : nat) : Playfield :=
  match data (tile_array self) !! i with
  | Some t => set_cells (alter f i (data (tile_array self))) (g t (rects_to_update self)) self
  | None => self
  end.

(** Same grid dimensions, background image and spawn anchor. *)
Definition same_grid (self self' : Playfield) : Prop :=
  shape (tile_array self') = shape (tile_array self) /\
  length (data (tile_array self')) = length (data (tile_array self)) /\
  empty_tile_img self' = empty_tile_img self /\
  spawn_row self' = spawn_row self /\
  spawn_column self' = spawn_column self.

(** A grid index inside the grid. *)
Definition in_grid (self : Playfield) (row column : Z) : Prop :=
  (0 <= row < Z.of_nat (shape (tile_array self)).1)%Z /\
  (0 <= column < Z.of_nat (shape (tile_array self)).2)%Z.

(** The blit of image [p.2] onto the tile at position [p.1]. *)
Definition blyt_cell (self : Playfield) (p : nat * Surface) : Playfield :=
  cell_step (tile_blyt p.2) (fun t => Rectlist.appendr (rect_blyt p.2 t)) self p.1.

(** The rectangle that blit adds to the dirty list. *)
Definition rect_at (self : Playfield) (p : nat * Surface) : option Rect :=
  rect_blyt p.2 <$> data (tile_array self) !! p.1.

(** The grid cell a mino is drawn on when it lies inside the grid. *)
Definition mino_row (self : Playfield) (tetromino : Tetromino) (mino : Mino) : Z :=
  spawn_row self + row mino + spawn_offset tetromino.

Definition mino_column (self : Playfield) (mino : Mino) : Z :=
  spawn_column self + column mino.

(** Number of minoes of a piece that land on grid cell [(r, c)]. *)
Definition minoes_at (self : Playfield) (tetromino : Tetromino) (r c : Z) : nat :=
  length (filter (fun mino => mino_row self tetromino mino = r /\
                              mino_column self mino = c)
                 (minoes tetromino)).

(** ** A concrete session

    The values [read_or_create_config_file] writes by default: a grid of
    24 rows and 10 columns at window position (26, 3) in units of 30
    pixels, spawn anchor (3, 4); tiles of 36 by 36 pixels. *)

Module Example.

(** [Game.create_playfield_tiles]: one new tile per cell, row by row,
    each on a subsurface of the game window. *)
Definition create_playfield_tiles (rows columns tile_w tile_h x_position y_position fraction : Z)
  : list Tile :=
  y ← range (Z.to_nat rows);
  x ← range (Z.to_nat columns);
  [Tile.init (mkSurface 0 tile_w tile_h
                ((Z.of_nat x * tile_w + x_position * fraction)%Z,
                 (Z.of_nat y * tile_h + y_position * fraction)%Z))].

Definition tile_img : Surface := mkSurface 1 36 36 (0, 0)%Z.
Definition piece_img : Surface := mkSurface 2 36 36 (0, 0)%Z.

Definition tiles : list Tile := create_playfield_tiles 24 10 36 36 26 3 30.

(** The playfield of [Game.setup_game_window] on a new [Rectlist]. *)
Definition started : Playfield.InitRes :=
  Playfield.init 24 10 tiles tile_img Rectlist.init 3 4.

Definition pf : Playfield :=
  match started with
  | Playfield.Constructed self => self
  | Playfield.Failed _ rects => mkPlayfield tile_img (mkArray (0, 0) []) rects 3 4
  end.

(** The same after the key for the I piece was pressed. *)
Definition pf_I : Playfield := exec (OpDraw (Tetromino_I piece_img)) pf.

(** A tracker whose peak was reset while a rectangle was pending. *)
Definition after_reset : Rectlist :=
  Rectlist.reset (Rectlist.appendr (mkRect 40 350 10 10) Rectlist.init).

(** Ten new tiles, for a grid of two rows and five columns. *)
Definition ten_tiles : list Tile := create_playfield_tiles 2 5 36 36 0 0 30.

End Example.

(** ** Invariants of the tiles of a playfield with background [bg] *)

(** The hold is the background image alone, or has several entries. *)
Definition stamped (bg : Surface) (t : Tile) : Prop :=
  hold t = [bg] \/ 1 < length (hold t).


(** Every tile of the grid satisfies [Q]. *)
Definition all_tiles (Q : Surface -> Tile -> Prop) (self : Playfield) : Prop :=
  wf (tile_array self) /\ Forall (Q (empty_tile_img self)) (data (tile_array self)).

(** ** The piece generator

    Modelled from the spec: module [generator] ([Unpacker],
    [packer_dict], [rs_dict]) is imported by [absolutris.py] but its
    source is not available.  The
    specification gives a random source the capability
    [next_in_range(low, high)] with inclusive bounds and a state that
    every draw advances, a supply policy the capability [draw(source)],
    the "no rules" policy as forwarding
    [source.next_in_range(0, variant_count - 1)], and [spawn_next()] as
    invoking the policy against the source.  A source is modelled by the
    sequence of raw numbers it will produce and its position in it. *)

Module generator.

Record RandomSource := mkSource {
  raw : nat -> Z;
  position : nat
}.

Definition next_in_range (low high : Z) (source : RandomSource) : Z * RandomSource :=
  ((low + raw source (position source) mod (high - low + 1))%Z,
   mkSource (raw source) (S (position source))).

Inductive SupplyPolicy := no_rules.

Definition draw (policy : SupplyPolicy) (variant_count : Z) (source : RandomSource)
  : Z * RandomSource :=
  match policy with
  | no_rules => next_in_range 0 (variant_count - 1) source
  end.

Record Unpacker := mkUnpacker {
  packer : SupplyPolicy;
  variant_count : Z;
  rs : RandomSource
}.

(** [Unpacker(packer, rs)]; an empty variant set is [InvalidPolicy]. *)
Definition init (policy : SupplyPolicy) (variant_count : Z) (source : RandomSource)
  : exn + Unpacker :=
  if (variant_count <=? 0)%Z then inl InvalidPolicy
  else inr (mkUnpacker policy variant_count source).

Definition spawn_next (self : Unpacker) : Z * Unpacker :=
  let '(index, source) := draw (packer self) (variant_count self) (rs self) in
  (index, mkUnpacker (packer self) (variant_count self) source).

(** [n] calls of [spawn_next()] in a row: the indices returned, oldest
    first, and the generator afterwards. *)
Fixpoint spawn_many (n : nat) (self : Unpacker) : list Z * Unpacker :=
  match n with
  | O => ([], self)
  | S k =>
      let '(index, self') := spawn_next self in
      let '(rest, self'') := spawn_many k self' in
      (index :: rest, self'')
  end.

End generator.

(** ** Traces of operations on the dirty list *)

(** The rectangles an operation appends. *)
Definition appended (o : Rectlist.op) : list Rect :=
  match o with
  | Rectlist.Append r => [r]
  | Rectlist.Extend rs => rs
  | Rectlist.Drain => []
  end.

(** The rectangles appended since the last drain of a trace, after those
    that were pending before it if it has no drain. *)
Definition pending_after (pending : list Rect) (os : list Rectlist.op) : list Rect :=
  foldl (fun acc o => match o with
                      | Rectlist.Drain => []
                      | _ => acc ++ appended o
                      end) pending os.

(** The number of rectangles a trace appends. *)
Definition added_by (os : list Rectlist.op) : nat :=
  sum_list ((fun o => length (appended o)) <$> os).


(** ** Setting up the game window

    [Game.load_config], [Game.create_playfield_tiles] and
    [Game.setup_game_window].  The window and the decoded tile image are
    what pygame returned for them; of the configuration only the values
    the playfield is built from are kept. *)

Module Setup.

(** [parent.subsurface(rect)]: refused unless the rectangle lies inside
    the parent, the far sides being sums of C ints; the new surface
    shares the parent's pixels. *)
Definition subsurface (parent : Surface) (rect : Rect) : exn + Surface :=
  if ((left rect <? 0) || (top rect <? 0) ||
      (width parent <? c_int (left rect + w rect)) ||
      (height parent <? c_int (top rect + h rect)))%Z
  then inl ValueError
  else inr (mkSurface (sid parent) (w rect) (h rect)
              (((abs_offset parent).1 + left rect)%Z, ((abs_offset parent).2 + top rect)%Z)).

Record Config := mkConfig {
  playfield_columns : Z;
  playfield_rows : Z;
  playfield_fraction_of_vres : Z;
  playfield_x_position : Z;
  playfield_y_position : Z;
  playfield_spawn_row : Z;
  playfield_spawn_column : Z
}.

(** The place of the cell of row [y] and column [x] in the window, as
    the arithmetic on Python integers gives it. *)
Definition cell_rect (cfg : Config) (img : Surface) (y x : nat) : Rect :=
  mkRect (Z.of_nat x * width img + playfield_x_position cfg * playfield_fraction_of_vres cfg)
         (Z.of_nat y * height img + playfield_y_position cfg * playfield_fraction_of_vres cfg)
         (width img) (height img).

(** The rectangle made of it for the tile of row [y] and column [x]. *)
Definition tile_rect (cfg : Config) (img : Surface) (y x : nat) : exn + Rect :=
  Rect_init
    (Z.of_nat x * width img + playfield_x_position cfg * playfield_fraction_of_vres cfg)
    (Z.of_nat y * height img + playfield_y_position cfg * playfield_fraction_of_vres cfg)
    (width img) (height img).

(** The subsurface of a tile whose cell lies inside the window. *)
Definition tile_surface (cfg : Config) (game_window img : Surface) (c : nat * nat) : Surface :=
  mkSurface (sid game_window) (width img) (height img)
    (((abs_offset game_window).1 + left (cell_rect cfg img c.1 c.2))%Z,
     ((abs_offset game_window).2 + top (cell_rect cfg img c.1 c.2))%Z).

(** The pairs the two loops go through, [for y in range(rows)] outside
    and [for x in range(columns)] inside. *)
Definition cells (rows columns : Z) : list (nat * nat) :=
  y ← range (Z.to_nat rows);
  (fun x => (y, x)) <$> range (Z.to_nat columns).

(** [list(generator)]: the values yielded, unless a step raises. *)
Fixpoint collect {A} (steps : list (exn + A)) : exn + list A :=
  match steps with
  | [] => inr []
  | inl e :: _ => inl e
  | inr a :: rest =>
      match collect rest with
      | inl e => inl e
      | inr l => inr (a :: l)
      end
  end.

(** One step of the generator [create_playfield_tiles]. *)
Definition create_tile (cfg : Config) (game_window img : Surface) (c : nat * nat)
  : exn + Tile :=
  match tile_rect cfg img c.1 c.2 with
  | inl e => inl e
  | inr rect =>
      match subsurface game_window rect with
      | inl e => inl e
      | inr s => inr (Tile.init s)
      end
  end.

Definition create_playfield_tiles (cfg : Config) (game_window img : Surface)
  : exn + list Tile :=
  collect (create_tile cfg game_window img
             <$> cells (playfield_rows cfg) (playfield_columns cfg)).

(** The playfield construction of [setup_game_window]; the generator runs
    inside [Playfield.__init__], before anything is blitted. *)
Definition setup_game_window (cfg : Config) (game_window img : Surface)
    (rects : Rectlist) : Playfield.InitRes :=
  match create_playfield_tiles cfg game_window img with
  | inl e => Playfield.Failed e rects
  | inr sequence =>
      Playfield.init (playfield_rows cfg) (playfield_columns cfg) sequence img rects
        (playfield_spawn_row cfg) (playfield_spawn_column cfg)
  end.

(** The grid of tiles lies inside the window, or has no tile. *)
Definition grid_fits (cfg : Config) (game_window img : Surface) : Prop :=
  (playfield_rows cfg <= 0 \/ playfield_columns cfg <= 0 \/
   (0 <= playfield_x_position cfg * playfield_fraction_of_vres cfg /\
    0 <= playfield_y_position cfg * playfield_fraction_of_vres cfg /\
    playfield_x_position cfg * playfield_fraction_of_vres cfg +
      playfield_columns cfg * width img <= width game_window /\
    playfield_y_position cfg * playfield_fraction_of_vres cfg +
      playfield_rows cfg * height img <= height game_window))%Z.

(** The coordinates of every tile are C ints: nothing is cut when the
    rectangles are made, and no sum overflows. *)
Definition coordinates_fit (cfg : Config) (img : Surface) : Prop :=
  (playfield_rows cfg <= 0 \/ playfield_columns cfg <= 0 \/
   (width img <= int_max /\ height img <= int_max /\
    int_min <= playfield_x_position cfg * playfield_fraction_of_vres cfg /\
    int_min <= playfield_y_position cfg * playfield_fraction_of_vres cfg /\
    playfield_x_position cfg * playfield_fraction_of_vres cfg +
      playfield_columns cfg * width img <= int_max /\
    playfield_y_position cfg * playfield_fraction_of_vres cfg +
      playfield_rows cfg * height img <= int_max))%Z.

(** [Rect.colliderect]: the two rectangles share a pixel. *)
Definition overlap (a b : Rect) : Prop :=
  (left a < left b + w b /\ left b < left a + w a /\
   top a < top b + h b /\ top b < top a + h a)%Z.

(** The configuration written by [read_or_create_config_file], a window
    of 1920 by 1080 and a tile image of 36 by 36 pixels. *)
Definition default_config : Config := mkConfig 10 24 30 26 3 3 4.
Definition default_window : Surface := mkSurface 0 1920 1080 (0, 0)%Z.

(** A tile image too large for 24 rows in that window. *)
Definition large_img : Surface := mkSurface 1 48 48 (0, 0)%Z.

End Setup.

(** ** Index normalisation and runs of operations *)


(** The state after a run of operations, oldest first. *)
Definition exec_all (os : list op) (self : Playfield) : Playfield :=
  foldl (fun s o => exec o s) self os.

(** The surfaces of the tiles, row by row. *)
Definition surfaces (self : Playfield) : list Surface :=
  surface <$> data (tile_array self).

(** ** The main loop of [Game.run_game] *)

Module Loop.

(** The keys the loop tells apart. *)
Inductive key :=
| K_q | K_n | K_KP1 | K_KP2 | K_KP3 | K_KP4 | K_KP5 | K_KP6 | K_KP7 | K_other.

(** An event of [pygame.event.get()].  A key press carries what
    [pygame.key.get_mods() & pygame.KMOD_CTRL] gives at the moment it is
    handled; [TICK] is the timer event, [OTHER] any other type. *)
Inductive event :=
| QUIT
| KEYDOWN (k : key) (ctrl : bool)
| TICK
| OTHER.

(** Module [tetrominoes], whose source is not available, taken as a
    parameter: the piece each of its seven classes constructs, and its
    table [mapping] from a drawn number to a piece, [None] where the
    lookup raises. *)
Record tetrominoes := mkTetrominoes {
  new_I : Tetromino;
  new_J : Tetromino;
  new_L : Tetromino;
  new_O : Tetromino;
  new_S : Tetromino;
  new_T : Tetromino;
  new_Z : Tetromino;
  mapping : Z -> option Tetromino
}.

(** What leaves [run_game] as an exception: one raised by the playfield,
    or the failed lookup in [tetrominoes.mapping]. *)
Inductive raised := Raised (e : exn) | LookupError.

(** The objects the loop works on. *)
Record state := mkState {
  pf : Playfield;
  unpacker : generator.Unpacker;
  pygame_running : bool
}.

Definition set_pf (p : Playfield) (s : state) : state :=
  mkState p (unpacker s) (pygame_running s).

(** [self.pygame_running = False] *)
Definition stop (s : state) : state :=
  mkState (pf s) (unpacker s) false.

(** How the body of [for event in pygame.event.get()] ends. *)
Inductive step :=
| Next (s : state)
| Break (s : state)
| Raise (e : raised) (s : state).

Definition state_of_step (r : step) : state :=
  match r with Next s => s | Break s => s | Raise _ s => s end.

(** A call of a playfield method from the loop body. *)
Definition call (m : M unit) (s : state) : step :=
  match m (pf s) with
  | Val _ p => Next (set_pf p s)
  | Exc e p => Raise (Raised e) (set_pf p s)
  end.

Definition handle_event (tet : tetrominoes) (ev : event) (s : state) : step :=
  match ev with
  | QUIT => Break (stop s)
  | KEYDOWN k ctrl =>
      match k with
      | K_q => if ctrl then Break (stop s) else call Playfield.clear_all_tiles s
      | K_KP1 => call (Playfield.draw_tetromino (new_I tet)) s
      | K_KP2 => call (Playfield.draw_tetromino (new_J tet)) s
      | K_KP3 => call (Playfield.draw_tetromino (new_L tet)) s
      | K_KP4 => call (Playfield.draw_tetromino (new_O tet)) s
      | K_KP5 => call (Playfield.draw_tetromino (new_S tet)) s
      | K_KP6 => call (Playfield.draw_tetromino (new_T tet)) s
      | K_KP7 => call (Playfield.draw_tetromino (new_Z tet)) s
      | K_n =>
          let '(random_number, u) := generator.spawn_next (unpacker s) in
          let s := mkState (pf s) u (pygame_running s) in
          match mapping tet random_number with
          | None => Raise LookupError s
          | Some tetromino => call (Playfield.draw_tetromino tetromino) s
          end
      | K_other => Next s
      end
  | TICK => call Game.tick s
  | OTHER => Next s
  end.

(** [for event in pygame.event.get(): ...], left early by [break] or by
    an exception. *)
Fixpoint handle_events (tet : tetrominoes) (evs : list event) (s : state) : step :=
  match evs with
  | [] => Next s
  | ev :: rest =>
      match handle_event tet ev s with
      | Next s' => handle_events tet rest s'
      | r => r
      end
  end.

(** One round of the [while] loop: the drain, then the events. *)
Definition frame (tet : tetrominoes) (evs : list event) (s : state) : step :=
  match Game.drain (pf s) with
  | Val _ p => handle_events tet evs (set_pf p s)
  | Exc e p => Raise (Raised e) (set_pf p s)
  end.

(** How far [run_game] got on the event batches of the frames given. *)
Inductive outcome :=
| Running (s : state)
| Quit (s : state)
| Crashed (e : raised) (s : state).

Definition state_of_outcome (r : outcome) : state :=
  match r with Running s => s | Quit s => s | Crashed _ s => s end.

(** [while self.pygame_running: ...], then [pygame.quit()]. *)
Fixpoint run_frames (tet : tetrominoes) (batches : list (list event)) (s : state) : outcome :=
  match batches with
  | [] => if pygame_running s then Running s else Quit s
  | evs :: rest =>
      if pygame_running s then
        match frame tet evs s with
        | Next s' => run_frames tet rest s'
        | Break s' => run_frames tet rest s'
        | Raise e s' => Crashed e s'
        end
      else Quit s
  end.

(** The events that end the loop: closing the window, and Ctrl+Q. *)
Definition is_quit (ev : event) : bool :=
  match ev with
  | QUIT => true
  | KEYDOWN K_q true => true
  | _ => false
  end.

(** [run_game] up to the loop: the dirty list, the playfield, the
    rectangle of the greeting, [text_w] by [text_h] at (40, 350), and the
    generator. *)
Definition start (cfg : Setup.Config) (game_window img : Surface) (text_w text_h : Z)
    (source : generator.RandomSource) : exn + state :=
  match Setup.setup_game_window cfg game_window img Rectlist.init with
  | Playfield.Failed e _ => inl e
  | Playfield.Constructed p =>
      let p := state_of (Game.appendr (mkRect 40 350 text_w text_h) p) in
      match generator.init generator.no_rules 7 source with
      | inl e => inl e
      | inr u => inr (mkState p u true)
      end
  end.

End Loop.

(** ** The game of [absolutris/game.py] *)

Module GuiGame.

(** The gui modules [Game.__init__] can import. *)
Inductive gui := gui_default | gui_debug | gui_m.

Inductive error := GuiNotImplemented (message : string).

Definition quote : string := String (Ascii.ascii_of_nat 34) EmptyString.

(** [Game(config)] for [config.cli.gui] a string. *)
Definition init (cli_gui : string) : error + gui :=
  if String.eqb cli_gui "default" then inr gui_default
  else if String.eqb cli_gui "debug" then inr gui_debug
  else if String.eqb cli_gui "m" then inr gui_m
  else inl (GuiNotImplemented
              ("Cannot find any instance of " +:+ quote +:+ cli_gui +:+ quote +:+ " in gui.py")).

(** The calls into pygame a run makes, in order. *)
Inductive pygame_call :=
| pygame_init | set_caption | set_mode | fill | event_get | key_get_mods | pygame_quit.

#[global] Instance pygame_call_eq_dec : EqDecision pygame_call.
Proof. solve_decision. Defined.

(** An event is a press of the Q key.  The modifier an event carries is
    what [pygame.key.get_mods()] answers when the event is handled. *)
Definition q_press (ev : Loop.event) : bool :=
  match ev with
  | Loop.KEYDOWN Loop.K_q _ => true
  | _ => false
  end.

(** One event in the loop of [run_gui]: the modifiers are asked for at
    every press of Q. *)
Definition asks_mods (ev : Loop.event) : list pygame_call :=
  if q_press ev then [key_get_mods] else [].

(** One event in the loop of [run_gui]: is the loop left? *)
Definition leaves (ev : Loop.event) : bool :=
  match ev with
  | Loop.QUIT => true
  | Loop.KEYDOWN k ctrl =>
      match k with
      | Loop.K_q => if ctrl then true else false
      | _ => false
      end
  | _ => false
  end.

(** [for event in pygame.event.get()]: the calls made, and whether the
    game is still running afterwards. *)
Fixpoint events_loop (evs : list Loop.event) : list pygame_call * bool :=
  match evs with
  | [] => ([], true)
  | ev :: rest =>
      if leaves ev then (asks_mods ev, false)
      else let '(calls, running) := events_loop rest in (asks_mods ev ++ calls, running)
  end.

(** The [while] loop of [run_gui] on the event batches given: the calls
    made and whether the loop was left. *)
Fixpoint main_loop (batches : list (list Loop.event)) : list pygame_call * bool :=
  match batches with
  | [] => ([], false)
  | evs :: rest =>
      let '(calls, running) := events_loop evs in
      if running
      then let '(calls', left) := main_loop rest in (event_get :: calls ++ calls', left)
      else (event_get :: calls, true)
  end.

(** [Game.run_gui]; [pygame.quit()] follows the loop. *)
Definition run_gui (batches : list (list Loop.event)) : list pygame_call * bool :=
  let '(calls, left) := main_loop batches in
  ([pygame_init; set_caption; set_mode; fill] ++ calls ++ (if left then [pygame_quit] else []),
   left).

(** How a call of [run(config)] goes on the event batches given. *)
Inductive result :=
| NoGui
| Refused (e : error)
| Ran (calls : list pygame_call) (finished : bool).

Definition run (cli_gui : option string) (batches : list (list Loop.event)) : result :=
  match cli_gui with
  | None => NoGui
  | Some name =>
      match init name with
      | inl e => Refused e
      | inr _ => let '(calls, left) := run_gui batches in Ran calls left
      end
  end.

End GuiGame.

(** ** A concrete run

    The session of [Example] as [run_game] starts it: a greeting of 200
    by 20 pixels, a random source producing 0, 1, 2, ..., and, for the
    missing module [tetrominoes], the I piece under every key. *)

Module Session.

Definition source : generator.RandomSource := generator.mkSource Z.of_nat 0.

Definition pieces : Loop.tetrominoes :=
  Loop.mkTetrominoes
    (Tetromino_I Example.piece_img) (Tetromino_I Example.piece_img)
    (Tetromino_I Example.piece_img) (Tetromino_I Example.piece_img)
    (Tetromino_I Example.piece_img) (Tetromino_I Example.piece_img)
    (Tetromino_I Example.piece_img)
    (fun n => if ((0 <=? n) && (n <=? 6))%Z then Some (Tetromino_I Example.piece_img) else None).

Definition started : exn + Loop.state :=
  Loop.start Setup.default_config Setup.default_window Example.tile_img 200 20 source.

Definition s0 : Loop.state :=
  match started with
  | inr s => s
  | inl _ => Loop.mkState Example.pf (generator.mkUnpacker generator.no_rules 7 source) true
  end.

End Session.

(** ** What a run of [absolutris/game.py] amounts to *)

(** A batch of events that ends a loop: it holds a window close or a
    Ctrl+Q. *)
Definition quitting (evs : list Loop.event) : Prop :=
  Exists (fun ev => Loop.is_quit ev = true) evs.

(** The number of frames a loop runs on the batches given: up to and
    including the first quitting one. *)
Definition frames_run (batches : list (list Loop.event)) : nat :=
  match list_find quitting batches with
  | Some (i, _) => S i
  | None => length batches
  end.

(** The events of a batch a loop handles: up to and including the first
    window close or Ctrl+Q. *)
Definition handled (evs : list Loop.event) : list Loop.event :=
  match list_find (fun ev => Loop.is_quit ev = true) evs with
  | Some (i, _) => take (S i) evs
  | None => evs
  end.

(** The presses of Q among them. *)
Definition q_presses (evs : list Loop.event) : nat :=
  length (filter (fun ev => GuiGame.q_press ev = true) (handled evs)).

(** The calls into pygame of one frame of [run_gui]: the events are
    polled, and the modifiers asked for once per handled press of Q. *)
Definition frame_calls (evs : list Loop.event) : list GuiGame.pygame_call :=
  GuiGame.event_get :: replicate (q_presses evs) GuiGame.key_get_mods.

(** ** The checks of [tests/test_gui.py] *)

Module TestGui.

(** The attributes of a gui instance the test reads; each is an [int]
    (or a [str]), as the test's type assertions require.  The two colours
    are only type-checked and are left out. *)
Record Gui := mkGui {
  game_window_x_pos : Z;
  game_window_y_pos : Z;
  game_window_title : string;
  game_window_width : Z;
  game_window_height : Z;
  flags : Z;
  playfield_width : Z;
  playfield_height : Z;
  pixel_width : Z;
  pixel_height : Z;
  mino_width : Z;
  mino_height : Z
}.

Inductive verdict := Passed | AssertionError | ZeroDivisionError.

(** [assert b], then the rest. *)
Definition assert (b : bool) (rest : verdict) : verdict :=
  if b then rest else AssertionError.

(** [assert a % b == m], then the rest. *)
Definition assert_mod (a b m : Z) (rest : verdict) : verdict :=
  if (b =? 0)%Z then ZeroDivisionError
  else assert (a mod b =? m)%Z rest.

(** [x in range(n + 1)] *)
Definition in_range (x n : Z) : bool := ((0 <=? x) && (x <=? n))%Z.

(** [str.lower()] on ASCII letters. *)
Definition lower_ascii (c : Ascii.ascii) : Ascii.ascii :=
  let n := Ascii.nat_of_ascii c in
  if (65 <=? n) && (n <=? 90) then Ascii.ascii_of_nat (n + 32) else c.

Fixpoint lower (s : string) : string :=
  match s with
  | EmptyString => EmptyString
  | String c rest => String (lower_ascii c) (lower rest)
  end.

(** ["absolutris" in title.lower()] *)
Definition names_game (title : string) : bool :=
  match String.index 0 "absolutris" (lower title) with
  | Some _ => true
  | None => false
  end.

(** The value assertions on one instance, in the order of the test.
    [flags_ok] is [testhelper.in_bitfield(gi.flags, ...)], whose source is
    not available. *)
Definition check_instance (flags_ok : Z -> bool) (gi : Gui) : verdict :=
  let res8Kw := 7680%Z in
  let res8Kh := 4320%Z in
  let min_playfield_width := 4%Z in
  let min_playfield_height := 4%Z in
  assert (in_range (game_window_x_pos gi) res8Kw) (
  assert (in_range (game_window_y_pos gi) res8Kh) (
  assert (names_game (game_window_title gi)) (
  assert (in_range (game_window_width gi) res8Kw) (
  assert (in_range (game_window_height gi) res8Kh) (
  assert (in_range (game_window_x_pos gi + game_window_width gi) res8Kw) (
  assert (in_range (game_window_y_pos gi + game_window_height gi) res8Kh) (
  assert (flags_ok (flags gi)) (
  assert_mod (game_window_width gi) (pixel_width gi) 0 (
  assert_mod (game_window_height gi) (pixel_height gi) 0 (
  assert (min_playfield_width <=? playfield_height gi)%Z (
  assert (min_playfield_height <=? playfield_width gi)%Z (
  assert (playfield_width gi * pixel_width gi * mino_width gi <=? game_window_width gi)%Z (
  assert (playfield_height gi * pixel_height gi * mino_height gi <=? game_window_height gi)%Z (
  assert (1 <=? pixel_width gi)%Z (
  assert (1 <=? pixel_height gi)%Z (
  assert (1 <=? mino_width gi)%Z (
  assert (1 <=? mino_height gi)%Z Passed))))))))))))))))).

(** [test_gui_instances] over the instances found. *)
Fixpoint test_gui_instances (flags_ok : Z -> bool) (guis : list Gui) : verdict :=
  match guis with
  | [] => Passed
  | gi :: rest =>
      match check_instance flags_ok gi with
      | Passed => test_gui_instances flags_ok rest
      | v => v
      end
  end.

(** A gui the test accepts: a window of 1920 by 1080 and a playfield of
    10 by 24 minoes of 36 by 36 pixels. *)
Definition example_gui : Gui :=
  mkGui 0 0 "Absolutris" 1920 1080 0 10 24 1 1 36 36.

End TestGui.

(** * Properties of the dirty list *)

Section RectlistFacts.

Import Rectlist.

Implicit Types (self : Rectlist) (itr : list Rect) (item : Rect).

Lemma update_max_eq self :
  update_max self =
  mkRectlist (items self) (Nat.max (max_items self) (len self)) (added_items self).
Proof.
  unfold update_max. destruct self as [l m a]; simpl.
  destruct (Nat.ltb_spec m (len (mkRectlist l m a))) as [Hlt|Hge]; f_equal; lia.
Qed.

Lemma appendr_eq item self :
  appendr item self =
  mkRectlist (items self ++ [item])
             (Nat.max (max_items self) (S (len self)))
             (S (added_items self)).
Proof.
  unfold appendr. rewrite update_max_eq. unfold len; simpl.
  rewrite length_app; simpl. f_equal; lia.
Qed.

Lemma extendr_eq itr self :
  extendr itr self =
  mkRectlist (items self ++ itr)
             (Nat.max (max_items self) (len self + length itr))
             (added_items self + length itr).
Proof.
  unfold extendr. rewrite update_max_eq. unfold len; simpl.
  by rewrite length_app.
Qed.

Lemma appendr_each_cons item itr self :
  appendr_each (item :: itr) self = appendr_each itr (appendr item self).
Proof. reflexivity. Qed.

(** One-by-one appends of a batch that is not empty. *)
Lemma appendr_each_eq item itr self :
  appendr_each (item :: itr) self =
  mkRectlist (items self ++ item :: itr)
             (Nat.max (max_items self) (len self + S (length itr)))
             (added_items self + S (length itr)).
Proof.
  revert item self. induction itr as [|x itr IH]; intros item self.
  - simpl. rewrite appendr_eq. f_equal; lia.
  - rewrite appendr_each_cons, IH, appendr_eq. unfold len; simpl.
    rewrite length_app, <- app_assoc; simpl. f_equal; lia.
Qed.

Lemma del_loop_eq n self :
  n <= len self ->
  del_loop n self = inr (mkRectlist (drop n (items self)) (max_items self) (added_items self)).
Proof.
  revert self. induction n as [|n IH]; intros [l m a]; unfold len; simpl; intros Hn.
  - by rewrite drop_0.
  - destruct l as [|x l]; simpl in *; [lia|].
    unfold del_first; simpl. rewrite IH; [done | unfold len; simpl; lia].
Qed.

Lemma drain_eq self :
  drain self = inr (items self, mkRectlist [] (max_items self) (added_items self)).
Proof.
  unfold drain. rewrite del_loop_eq by done.
  unfold len. by rewrite drop_all.
Qed.

Lemma step_max_mono self o : max_items self <= max_items (step self o).
Proof.
  destruct o as [r|rs|]; simpl.
  - rewrite appendr_eq; simpl; lia.
  - rewrite extendr_eq; simpl; lia.
  - by rewrite drain_eq.
Qed.

Lemma step_len_le_max self o : len (step self o) <= max_items (step self o).
Proof.
  destruct o as [r|rs|]; simpl.
  - rewrite appendr_eq. unfold len; simpl. rewrite length_app; simpl. lia.
  - rewrite extendr_eq. unfold len; simpl. rewrite length_app. lia.
  - rewrite drain_eq. unfold len; simpl. lia.
Qed.

Lemma run_max_mono self os : max_items self <= max_items (run self os).
Proof.
  revert self. induction os as [|o os IH]; intros self; simpl; [done|].
  etrans; [apply (step_max_mono self o) | apply IH].
Qed.

Lemma run_app self os1 os2 : run self (os1 ++ os2) = run (run self os1) os2.
Proof. apply foldl_app. Qed.

End RectlistFacts.

(** * Properties of the playfield *)

Section PlayfieldFacts.

Import Playfield.

Implicit Types (self : Playfield) (t : Tile) (srf bg : Surface) (i : nat).

Lemma bind_val {A B} (m : M A) (k : A -> M B) self a self' :
  m self = Val a self' -> (m ≫= k) self = k a self'.
Proof. unfold mbind, M_bind. by intros ->. Qed.

Lemma bind_exc {A B} (m : M A) (k : A -> M B) self e self' :
  m self = Exc e self' -> (m ≫= k) self = Exc e self'.
Proof. unfold mbind, M_bind. by intros ->. Qed.

Lemma same_grid_refl self : same_grid self self.
Proof. by split. Qed.

Lemma same_grid_trans self1 self2 self3 :
  same_grid self1 self2 -> same_grid self2 self3 -> same_grid self1 self3.
Proof. intros (?&?&?&?&?) (?&?&?&?&?). repeat split; congruence. Qed.

Lemma same_grid_wf self self' :
  same_grid self self' -> wf (tile_array self) -> wf (tile_array self').
Proof. unfold wf. intros (-> & -> & _). done. Qed.

Lemma cell_step_same_grid f g self i : same_grid self (cell_step f g self i).
Proof.
  unfold cell_step. destruct (data (tile_array self) !! i); [|apply same_grid_refl].
  repeat split; simpl; [apply length_alter].
Qed.

(** *** Indexing *)

Lemma axis_index_in (z : Z) n :
  (0 <= z < Z.of_nat n)%Z -> axis_index z n = Some (Z.to_nat z).
Proof.
  intros Hi. unfold axis_index.
  destruct (Z.ltb_spec z (- Z.of_nat n)); [lia|].
  destruct (Z.leb_spec (Z.of_nat n) z); [lia|]. simpl.
  destruct (Z.ltb_spec z 0); [lia|done].
Qed.


Lemma axis_index_out (z : Z) n :
  (z < - Z.of_nat n \/ Z.of_nat n <= z)%Z -> axis_index z n = None.
Proof.
  intros Hi. unfold axis_index.
  destruct (Z.ltb_spec z (- Z.of_nat n)); [done|].
  destruct (Z.leb_spec (Z.of_nat n) z); [done|lia].
Qed.

Lemma axis_index_lt (z : Z) n k : axis_index z n = Some k -> k < n.
Proof.
  unfold axis_index.
  destruct (Z.ltb_spec z (- Z.of_nat n)); [done|].
  destruct (Z.leb_spec (Z.of_nat n) z); [done|]. simpl.
  destruct (Z.ltb_spec z 0); intros [= <-]; lia.
Qed.

Lemma flat_index_nat a (r c : nat) :
  r < (shape a).1 -> c < (shape a).2 ->
  flat_index a (Z.of_nat r) (Z.of_nat c) = Some (r * (shape a).2 + c).
Proof.
  intros Hr Hc. unfold flat_index.
  rewrite !axis_index_in by lia. by rewrite !Nat2Z.id.
Qed.

Lemma flat_index_lt a row column i :
  wf a -> flat_index a row column = Some i -> i < length (data a).
Proof.
  unfold wf, flat_index. intros ->.
  destruct (axis_index row _) as [r|] eqn:Hr; [|done].
  destruct (axis_index column _) as [c|] eqn:Hc; [|done].
  intros [= <-]. apply axis_index_lt in Hr, Hc. nia.
Qed.

(** *** One blit *)

Lemma blyt_ok column row srf self i :
  flat_index (tile_array self) row column = Some i ->
  i < length (data (tile_array self)) ->
  blyt column row srf self =
  Val tt (cell_step (tile_blyt srf) (fun t => Rectlist.appendr (rect_blyt srf t)) self i).
Proof.
  intros Hi Hlt. apply lookup_lt_is_Some_2 in Hlt as [t Ht].
  unfold blyt, cell_step. rewrite Ht.
  erewrite bind_val; [|unfold tile_ref; by rewrite Hi].
  erewrite bind_val; [|unfold deref; by rewrite Ht].
  reflexivity.
Qed.

Lemma blyt_raises column row srf self :
  flat_index (tile_array self) row column = None ->
  blyt column row srf self = Exc IndexError self.
Proof.
  intros Hi. unfold blyt. apply bind_exc. unfold tile_ref. by rewrite Hi.
Qed.

(** Whatever its outcome, a blit is a [cell_step] or nothing. *)
Lemma blyt_state column row srf self :
  state_of (blyt column row srf self) = self \/
  exists i, state_of (blyt column row srf self) =
            cell_step (tile_blyt srf) (fun t => Rectlist.appendr (rect_blyt srf t)) self i.
Proof.
  destruct (flat_index (tile_array self) row column) as [i|] eqn:Hi.
  - destruct (decide (i < length (data (tile_array self)))) as [Hlt|Hge].
    + right. exists i. by rewrite (blyt_ok _ _ _ _ i).
    + left. unfold blyt. erewrite bind_val; [|unfold tile_ref; by rewrite Hi].
      erewrite bind_exc; [done|]. unfold deref.
      rewrite lookup_ge_None_2; [done|lia].
  - left. by rewrite blyt_raises.
Qed.

(** *** Loops over the grid *)

Lemma foldl_cell_step_same_grid f g self l :
  same_grid self (foldl (cell_step f g) self l).
Proof.
  revert self. induction l as [|i l IH]; intros self; simpl.
  - apply same_grid_refl.
  - eapply same_grid_trans; [apply cell_step_same_grid | apply IH].
Qed.

Lemma for_row (body : nat -> M unit) f g base k c0 self :
  (forall c self', same_grid self self' -> c0 <= c < c0 + k ->
     body c self' = Val tt (cell_step f g self' (base + c))) ->
  for_ (seq c0 k) body self = Val tt (foldl (cell_step f g) self (seq (base + c0) k)).
Proof.
  revert c0 self. induction k as [|k IH]; intros c0 self Hbody; simpl; [done|].
  erewrite bind_val; [|apply Hbody; [apply same_grid_refl | lia]].
  rewrite IH.
  - by rewrite Nat.add_succ_r.
  - intros c self' Hgrid Hc. apply Hbody; [|lia].
    eapply same_grid_trans; [apply cell_step_same_grid | done].
Qed.

Lemma for_rows (body : nat -> nat -> M unit) f g cols k r0 self :
  (forall r c self', same_grid self self' -> r0 <= r < r0 + k -> c < cols ->
     body r c self' = Val tt (cell_step f g self' (r * cols + c))) ->
  for_ (seq r0 k) (fun r => for_ (range cols) (body r)) self =
  Val tt (foldl (cell_step f g) self (seq (r0 * cols) (k * cols))).
Proof.
  revert r0 self. induction k as [|k IH]; intros r0 self Hbody; simpl; [done|].
  erewrite bind_val; cycle 1.
  { unfold range. apply (for_row (body r0) f g (r0 * cols)).
    intros c self' Hgrid Hc. apply Hbody; [done | lia | lia]. }
  rewrite IH.
  - rewrite seq_app, foldl_app, Nat.add_0_r.
    by replace (r0 * cols + cols) with (S r0 * cols) by lia.
  - intros r c self' Hgrid Hr Hc. apply Hbody; [|lia|done].
    eapply same_grid_trans; [apply foldl_cell_step_same_grid | done].
Qed.

Lemma set_cells_id self :
  set_cells (data (tile_array self)) (rects_to_update self) self = self.
Proof. by destruct self as [? [? ?] ? ? ?]. Qed.

Lemma foldl_cell_step f g self l1 l2 :
  data (tile_array self) = l1 ++ l2 ->
  foldl (cell_step f g) self (seq (length l1) (length l2)) =
  set_cells (l1 ++ (f <$> l2)) (foldl (fun rects t => g t rects) (rects_to_update self) l2) self.
Proof.
  revert l1 self. induction l2 as [|t l2 IH]; intros l1 self Hdata; simpl.
  - rewrite <- Hdata. by rewrite set_cells_id.
  - unfold cell_step at 2. rewrite Hdata, list_lookup_middle by done.
    rewrite alter_app_r_alt, Nat.sub_diag by lia; simpl.
    replace (S (length l1)) with (length (l1 ++ [f t])) by (rewrite length_app; simpl; lia).
    rewrite IH by (simpl; by rewrite <- app_assoc).
    unfold set_cells; simpl. by rewrite <- app_assoc.
Qed.

(** A doubly nested loop whose body changes only its own cell maps [f]
    over the grid and feeds the tiles, in row-major order, to [g]. *)
Lemma for_grid (body : nat -> nat -> M unit) f g self :
  wf (tile_array self) ->
  (forall r c self', same_grid self self' ->
     r < (shape (tile_array self)).1 -> c < (shape (tile_array self)).2 ->
     body r c self' = Val tt (cell_step f g self' (r * (shape (tile_array self)).2 + c))) ->
  for_ (range (shape (tile_array self)).1)
       (fun r => for_ (range (shape (tile_array self)).2) (body r)) self =
  Val tt (set_cells (f <$> data (tile_array self))
            (foldl (fun rects t => g t rects) (rects_to_update self) (data (tile_array self)))
            self).
Proof.
  intros Hwf Hbody. unfold range at 1.
  rewrite (for_rows body f g); [|intros; apply Hbody; [done|lia|done]].
  rewrite <- Hwf. f_equal.
  apply (foldl_cell_step f g self [] (data (tile_array self))). done.
Qed.

Lemma alter_fixed {A} (f : A -> A) (l : list A) i x :
  l !! i = Some x -> f x = x -> alter f i l = l.
Proof.
  intros Hl Hx. rewrite <- (list_alter_id id l i) at 2 by done.
  apply list_alter_ext; [|done]. intros y Hy. unfold id. congruence.
Qed.

Lemma blit_initial_images_eq srf self :
  wf (tile_array self) ->
  blit_initial_images srf self =
  Val tt (set_cells (tile_blyt srf <$> data (tile_array self))
            (foldl (fun rects t => Rectlist.appendr (rect_blyt srf t) rects)
               (rects_to_update self) (data (tile_array self)))
            self).
Proof.
  intros Hwf. unfold blit_initial_images.
  erewrite bind_val; [|reflexivity].
  destruct (shape (tile_array self)) as [rows columns] eqn:Hshape.
  pose proof (for_grid (fun r c => blyt (Z.of_nat c) (Z.of_nat r) srf)
                (tile_blyt srf) (fun t => Rectlist.appendr (rect_blyt srf t)) self Hwf) as H.
  rewrite Hshape in H; simpl in H. apply H.
  intros r c self' Hgrid Hr Hc.
  pose proof (same_grid_wf _ _ Hgrid Hwf) as Hwf'.
  destruct Hgrid as (Hs & _).
  assert (flat_index (tile_array self') (Z.of_nat r) (Z.of_nat c) = Some (r * columns + c)) as Hi.
  { rewrite flat_index_nat; rewrite Hs, Hshape; simpl; done. }
  apply blyt_ok; [done | by eapply flat_index_lt].
Qed.

(** One iteration of [clear_all_tiles]: an occupied tile has its hold
    emptied and the background blitted onto it at once; the state the
    iteration leaves has the tile cleared. *)
Lemma clear_tile_eq (r c : nat) self :
  wf (tile_array self) ->
  r < (shape (tile_array self)).1 -> c < (shape (tile_array self)).2 ->
  clear_tile r c self =
  Val tt (cell_step (tile_clear (empty_tile_img self)) (rects_clear (empty_tile_img self))
            self (r * (shape (tile_array self)).2 + c)).
Proof.
  intros Hwf Hr Hc. unfold clear_tile.
  pose proof (flat_index_nat (tile_array self) r c Hr Hc) as Hi.
  pose proof (flat_index_lt _ _ _ _ Hwf Hi) as Hlt.
  apply lookup_lt_is_Some_2 in Hlt as [t Ht].
  erewrite bind_val; [|unfold tile_ref; by rewrite Hi].
  erewrite bind_val; [|unfold deref; by rewrite Ht].
  unfold cell_step. rewrite Ht. unfold tile_clear at 1, rects_clear.
  destruct (Tile.is_empty t) eqn:Hempty; simpl.
  - rewrite (alter_fixed _ _ _ t); [by rewrite set_cells_id | done |].
    unfold tile_clear. by rewrite Hempty.
  - erewrite bind_val; [|reflexivity].
    erewrite bind_val; [|reflexivity].
    erewrite blyt_ok; [|exact Hi | simpl; rewrite length_alter; by eapply lookup_lt_Some].
    unfold cell_step; simpl. rewrite list_lookup_alter_eq, Ht; simpl.
    rewrite list_alter_alter_eq. unfold set_cells; simpl.
    do 3 f_equal.
    apply list_alter_ext; [|done]. intros t' Ht'.
    assert (t' = t) as -> by congruence.
    unfold tile_clear. by rewrite Hempty.
Qed.

Lemma clear_all_tiles_eq self :
  wf (tile_array self) ->
  clear_all_tiles self =
  Val tt (set_cells (tile_clear (empty_tile_img self) <$> data (tile_array self))
            (foldl (fun rects t => rects_clear (empty_tile_img self) t rects)
               (rects_to_update self) (data (tile_array self)))
            self).
Proof.
  intros Hwf. unfold clear_all_tiles.
  erewrite bind_val; [|reflexivity].
  destruct (shape (tile_array self)) as [rows columns] eqn:Hshape.
  set (bg := empty_tile_img self).
  pose proof (for_grid clear_tile (tile_clear bg) (rects_clear bg) self Hwf) as H.
  rewrite Hshape in H; simpl in H. apply H. clear H.
  intros r c self' Hgrid Hr Hc.
  pose proof (same_grid_wf _ _ Hgrid Hwf) as Hwf'.
  destruct Hgrid as (Hs & _ & Himg & _).
  rewrite clear_tile_eq; rewrite ?Hs, ?Hshape, ?Himg; done.
Qed.


(** *** Sequences of blits *)

Lemma same_grid_flat_index self self' row column :
  same_grid self self' ->
  flat_index (tile_array self') row column = flat_index (tile_array self) row column.
Proof. intros (Hs & _). unfold flat_index. by rewrite Hs. Qed.

Lemma foldl_blyt_cell_same_grid self ps : same_grid self (foldl blyt_cell self ps).
Proof.
  revert self. induction ps as [|p ps IH]; intros self; simpl.
  - apply same_grid_refl.
  - eapply same_grid_trans; [apply cell_step_same_grid | apply IH].
Qed.

(** A loop of blits at accepted indices is the sequence of its blits. *)
Lemma for_blyt {A} (xs : list A) (col rw : A -> Z) (srf : A -> Surface) (idx : A -> nat) self :
  wf (tile_array self) ->
  Forall (fun x => flat_index (tile_array self) (rw x) (col x) = Some (idx x)) xs ->
  for_ xs (fun x => blyt (col x) (rw x) (srf x)) self =
  Val tt (foldl blyt_cell self ((fun x => (idx x, srf x)) <$> xs)).
Proof.
  revert self. induction xs as [|x xs IH]; intros self Hwf Hxs; simpl; [done|].
  inversion Hxs as [|? ? Hx Hxs']; subst.
  erewrite bind_val; [|apply (blyt_ok _ _ _ _ (idx x)); [done | by eapply flat_index_lt]].
  pose proof (cell_step_same_grid (tile_blyt (srf x))
                (fun t => Rectlist.appendr (rect_blyt (srf x) t)) self (idx x)) as Hgrid.
  apply IH.
  - by eapply same_grid_wf.
  - eapply Forall_impl; [exact Hxs'|]. intros y Hy. simpl in Hy.
    by rewrite (same_grid_flat_index _ _ _ _ Hgrid).
Qed.

Lemma blyt_cell_lookup self p i t :
  data (tile_array self) !! i = Some t ->
  data (tile_array (blyt_cell self p)) !! i =
  Some (if decide (p.1 = i) then tile_blyt p.2 t else t).
Proof.
  intros Ht. unfold blyt_cell, cell_step.
  destruct (data (tile_array self) !! p.1) as [t'|] eqn:Hp; simpl.
  - case_decide as Hi.
    + subst i. rewrite list_lookup_alter_eq, Ht. done.
    + by rewrite list_lookup_alter_ne.
  - case_decide as Hi; [congruence | done].
Qed.

(** The tile at [i] after a sequence of blits: its hold has grown by the
    images blitted at [i], in order; its surface is the same. *)
Lemma foldl_blyt_lookup ps self i t :
  data (tile_array self) !! i = Some t ->
  data (tile_array (foldl blyt_cell self ps)) !! i =
  Some (mkTile (surface t) (hold t ++ (snd <$> filter (fun p => p.1 = i) ps))).
Proof.
  revert self t. induction ps as [|p ps IH]; intros self t Ht; simpl.
  - rewrite app_nil_r. by destruct t.
  - erewrite IH; [|by apply blyt_cell_lookup].
    rewrite filter_cons. case_decide as Hi; simpl; [|done].
    by rewrite <- app_assoc.
Qed.

Lemma rect_at_blyt_cell self p q : rect_at (blyt_cell self p) q = rect_at self q.
Proof.
  unfold rect_at.
  destruct (data (tile_array self) !! q.1) as [t|] eqn:Ht.
  - rewrite (blyt_cell_lookup _ _ _ _ Ht). simpl. by case_decide.
  - apply lookup_ge_None_1 in Ht.
    rewrite lookup_ge_None_2; [done|].
    destruct (cell_step_same_grid (tile_blyt p.2)
                (fun t => Rectlist.appendr (rect_blyt p.2 t)) self p.1) as (_ & Hlen & _).
    unfold blyt_cell. lia.
Qed.

(** The dirty list after a sequence of blits: one rectangle per blit,
    appended in order. *)
Lemma foldl_blyt_rects_gen ps self self0 :
  (forall q, rect_at self q = rect_at self0 q) ->
  rects_to_update (foldl blyt_cell self ps) =
  Rectlist.appendr_each (omap (rect_at self0) ps) (rects_to_update self).
Proof.
  revert self. induction ps as [|p ps IH]; intros self Hsame; simpl; [done|].
  rewrite IH by (intros q; by rewrite rect_at_blyt_cell).
  rewrite <- Hsame.
  unfold blyt_cell at 1, cell_step. unfold rect_at at 2.
  by destruct (data (tile_array self) !! p.1).
Qed.

Lemma foldl_blyt_rects ps self :
  rects_to_update (foldl blyt_cell self ps) =
  Rectlist.appendr_each (omap (rect_at self) ps) (rects_to_update self).
Proof. by apply foldl_blyt_rects_gen. Qed.

Lemma appendr_each_len_added rs (rects : Rectlist) :
  items (Rectlist.appendr_each rs rects) = items rects ++ rs /\
  added_items (Rectlist.appendr_each rs rects) = added_items rects + length rs.
Proof.
  destruct rs as [|r rs].
  - simpl. rewrite app_nil_r. split; [done | lia].
  - rewrite appendr_each_eq. simpl. done.
Qed.

Lemma omap_all_Some {A B} (f : A -> option B) (l : list A) :
  Forall (fun x => is_Some (f x)) l ->
  Forall2 (fun x y => f x = Some y) l (omap f l).
Proof.
  induction 1 as [|x l [y Hy] _ IH]; simpl; [constructor|].
  rewrite Hy. by constructor.
Qed.

(** *** Construction *)

Lemma fits_intp_in (n : Z) : (0 <= n <= intp_max)%Z -> fits_intp n = true.
Proof.
  unfold fits_intp, intp_min, intp_max. intros Hn.
  apply andb_true_intro; split; apply Z.leb_le; lia.
Qed.

Lemma fits_array_intp (rows columns : Z) :
  (0 <= rows)%Z -> (0 <= columns)%Z -> fits_array rows columns ->
  (rows <= intp_max /\ columns <= intp_max)%Z.
Proof. unfold fits_array, itemsize. intros Hr Hc Hfits. split; nia. Qed.

Lemma too_big_fits (rows columns : Z) :
  too_big (rows, columns) = false <-> fits_array rows columns.
Proof. unfold too_big, fits_array; simpl. by rewrite Z.ltb_ge. Qed.

Lemma classic_fits (rows columns : Z) :
  fits_array rows columns \/ ~ fits_array rows columns.
Proof. unfold fits_array. lia. Qed.

Lemma reshape_ok (l : list Tile) (rows columns : Z) :
  (0 <= rows)%Z -> (0 <= columns)%Z -> fits_array rows columns ->
  Z.of_nat (length l) = (rows * columns)%Z ->
  reshape l rows columns = inr (mkArray (Z.to_nat rows, Z.to_nat columns) l).
Proof.
  intros Hr Hc Hfits Hlen. unfold reshape, fix_unknown_dimension.
  destruct (fits_array_intp rows columns Hr Hc Hfits) as [Hr' Hc'].
  rewrite !fits_intp_in by done. simpl.
  destruct (Z.ltb_spec rows 0); [lia|].
  destruct (Z.ltb_spec columns 0); [lia|].
  destruct (Z.eqb_spec (rows * columns) (Z.of_nat (length l))); [|lia].
  by rewrite (proj2 (too_big_fits rows columns) Hfits).
Qed.

Lemma reshape_too_big (l : list Tile) (rows columns : Z) :
  (0 <= rows)%Z -> (0 <= columns)%Z -> ~ fits_array rows columns ->
  reshape l rows columns = inl ValueError.
Proof.
  intros Hr Hc Hfits. unfold reshape, fix_unknown_dimension.
  destruct (fits_intp rows && fits_intp columns); simpl; [|done].
  destruct (Z.ltb_spec rows 0); [lia|].
  destruct (Z.ltb_spec columns 0); [lia|].
  destruct (Z.eqb_spec (rows * columns) (Z.of_nat (length l))); [|done].
  destruct (too_big (rows, columns)) eqn:Hbig; [done|].
  by apply too_big_fits in Hbig.
Qed.

Lemma reshape_mismatch (l : list Tile) (rows columns : Z) :
  (0 <= rows)%Z -> (0 <= columns)%Z ->
  Z.of_nat (length l) <> (rows * columns)%Z ->
  reshape l rows columns = inl ValueError.
Proof.
  intros Hr Hc Hlen. unfold reshape, fix_unknown_dimension.
  destruct (fits_intp rows && fits_intp columns); simpl; [|done].
  destruct (Z.ltb_spec rows 0); [lia|].
  destruct (Z.ltb_spec columns 0); [lia|].
  destruct (Z.eqb_spec (rows * columns) (Z.of_nat (length l))); [lia|done].
Qed.

Lemma inferred_dimension (size known : Z) :
  (0 <= size)%Z -> (0 <= known)%Z -> known <> 0%Z -> (size mod known = 0)%Z ->
  Z.to_nat size = Z.to_nat (size / known) * Z.to_nat known.
Proof.
  intros Hs Hk Hk0 Hmod.
  assert (size = known * (size / known))%Z as Heq by (apply Z.div_exact; done).
  assert (0 <= size / known)%Z by (apply Z.div_pos; lia).
  rewrite <- Z2Nat.inj_mul by lia. f_equal. lia.
Qed.

Lemma fix_unknown_dimension_inr (size rows columns : Z) (dims : Z * Z) :
  (0 <= size)%Z ->
  fix_unknown_dimension size rows columns = inr dims ->
  Z.to_nat size = Z.to_nat dims.1 * Z.to_nat dims.2.
Proof.
  intros Hsize. unfold fix_unknown_dimension.
  destruct (Z.ltb_spec rows 0).
  - destruct (Z.ltb_spec columns 0); [done|].
    destruct (Z.eqb_spec columns 0); simpl; [done|].
    destruct (Z.eqb_spec (size mod columns) 0); simpl; [|done].
    intros [= <-]; simpl. by apply inferred_dimension; try lia.
  - destruct (Z.ltb_spec columns 0).
    + destruct (Z.eqb_spec rows 0); simpl; [done|].
      destruct (Z.eqb_spec (size mod rows) 0); simpl; [|done].
      intros [= <-]; simpl. rewrite Nat.mul_comm. by apply inferred_dimension; try lia.
    + destruct (Z.eqb_spec (rows * columns) size) as [Heq|]; [|done].
      intros [= <-]; simpl. rewrite <- Z2Nat.inj_mul, Heq by lia. done.
Qed.

(** What [reshape] returns has the elements it was given and as many
    of them as its shape says. *)
Lemma reshape_inr (l : list Tile) (rows columns : Z) a :
  reshape l rows columns = inr a -> data a = l /\ wf a.
Proof.
  unfold reshape, wf.
  destruct (fits_intp rows && fits_intp columns); simpl; [|done].
  destruct (fix_unknown_dimension _ rows columns) as [e|dims] eqn:Hshape; [done|].
  destruct (too_big dims); [done|]. intros [= <-]; simpl. split; [done|].
  apply fix_unknown_dimension_inr in Hshape; [|lia]. by rewrite Nat2Z.id in Hshape.
Qed.

(** With as many elements as [rows * columns], [reshape] returns an array
    only for dimensions that are not negative and an array numpy can
    hold. *)
Lemma reshape_exact_inr (l : list Tile) (rows columns : Z) a :
  Z.of_nat (length l) = (rows * columns)%Z ->
  reshape l rows columns = inr a ->
  (0 <= rows)%Z /\ (0 <= columns)%Z /\ fits_array rows columns.
Proof.
  intros Hlen Hre.
  assert (0 <= rows /\ 0 <= columns)%Z as [Hr Hc].
  { revert Hre. unfold reshape, fix_unknown_dimension.
    destruct (fits_intp rows && fits_intp columns); simpl; [|done].
    destruct (Z.ltb_spec rows 0).
    - destruct (Z.ltb_spec columns 0); [done|].
      destruct (Z.eqb_spec columns 0); simpl; [done|]. nia.
    - destruct (Z.ltb_spec columns 0); [|done].
      destruct (Z.eqb_spec rows 0); simpl; [done|]. nia. }
  split; [done|]. split; [done|].
  destruct (classic_fits rows columns) as [Hfits|Hfits]; [done|].
  rewrite reshape_too_big in Hre by done. done.
Qed.

Lemma init_constructed rows columns l srf rects sr sc self :
  init rows columns l srf rects sr sc = Constructed self ->
  exists a, reshape l rows columns = inr a /\
    self = mkPlayfield srf (mkArray (shape a) (tile_blyt srf <$> l))
             (foldl (fun rects t => Rectlist.appendr (rect_blyt srf t) rects) rects l)
             sr sc.
Proof.
  unfold init. destruct (reshape l rows columns) as [e|a] eqn:Ha; [done|].
  destruct (reshape_inr _ _ _ _ Ha) as [Hdata Hwf].
  rewrite blit_initial_images_eq by done. simpl.
  intros [= <-]. exists a. split; [done|]. unfold set_cells; simpl. by rewrite Hdata.
Qed.

Lemma init_ok rows columns l srf rects sr sc :
  (0 <= rows)%Z -> (0 <= columns)%Z -> fits_array rows columns ->
  Z.of_nat (length l) = (rows * columns)%Z ->
  init rows columns l srf rects sr sc =
  Constructed (mkPlayfield srf
                 (mkArray (Z.to_nat rows, Z.to_nat columns) (tile_blyt srf <$> l))
                 (Rectlist.appendr_each (rect_blyt srf <$> l) rects) sr sc).
Proof.
  intros Hr Hc Hfits Hlen. unfold init. rewrite reshape_ok by done.
  rewrite blit_initial_images_eq; simpl.
  - unfold set_cells; simpl. unfold Rectlist.appendr_each. by rewrite foldl_fmap.
  - unfold wf; simpl. rewrite <- Z2Nat.inj_mul, <- Hlen by lia. by rewrite Nat2Z.id.
Qed.

Lemma init_too_big rows columns l srf rects sr sc :
  (0 <= rows)%Z -> (0 <= columns)%Z -> ~ fits_array rows columns ->
  init rows columns l srf rects sr sc = Failed ValueError rects.
Proof. intros Hr Hc Hfits. unfold init. by rewrite reshape_too_big. Qed.

Lemma init_exact_constructed rows columns l srf rects sr sc self :
  Z.of_nat (length l) = (rows * columns)%Z ->
  init rows columns l srf rects sr sc = Constructed self ->
  (0 <= rows)%Z /\ (0 <= columns)%Z /\ fits_array rows columns.
Proof.
  intros Hlen. unfold init.
  destruct (reshape l rows columns) as [e|a] eqn:Hre; [done|].
  intros _. by eapply reshape_exact_inr.
Qed.

(** *** Invariants *)

Lemma for_state {A} (I : Playfield -> Prop) (xs : list A) (body : A -> M unit) self :
  (forall x s, I s -> I (state_of (body x s))) ->
  I self -> I (state_of (for_ xs body self)).
Proof.
  intros Hbody. revert self. induction xs as [|x xs IH]; intros self HI; simpl; [done|].
  specialize (Hbody x self HI). unfold mbind, M_bind.
  destruct (body x self) as [[] s|e s]; simpl in *; [by apply IH | done].
Qed.

Section Invariant.

Variable Q : Surface -> Tile -> Prop.
Hypothesis Q_init : forall srf t, Q srf (tile_blyt srf t).
Hypothesis Q_blyt : forall bg srf t, Q bg t -> Q bg (tile_blyt srf t).
Hypothesis Q_clear : forall bg t, Q bg t -> Q bg (tile_clear bg t).

Lemma all_tiles_cell_step srf self i :
  all_tiles Q self -> all_tiles Q (blyt_cell self (i, srf)).
Proof using Q_blyt.
  intros [Hwf HQ]. unfold blyt_cell; simpl.
  pose proof (cell_step_same_grid (tile_blyt srf)
                (fun t => Rectlist.appendr (rect_blyt srf t)) self i) as Hgrid.
  split; [by eapply same_grid_wf|].
  destruct Hgrid as (_ & _ & -> & _).
  unfold cell_step. destruct (data (tile_array self) !! i); simpl; [|done].
  apply Forall_alter; [done|]. intros t' _. apply Q_blyt.
Qed.

Lemma all_tiles_blyt column row srf self :
  all_tiles Q self -> all_tiles Q (state_of (blyt column row srf self)).
Proof using Q_blyt.
  intros HQ. destruct (blyt_state column row srf self) as [->|[i ->]]; [done|].
  by apply (all_tiles_cell_step srf self i).
Qed.

Lemma all_tiles_clear self :
  all_tiles Q self -> all_tiles Q (state_of (clear_all_tiles self)).
Proof using Q_clear.
  intros [Hwf HQ]. rewrite clear_all_tiles_eq by done. simpl.
  split.
  - unfold wf in *; simpl. by rewrite length_fmap.
  - simpl. apply Forall_fmap. eapply Forall_impl; [exact HQ|]. intros t. apply Q_clear.
Qed.

Lemma all_tiles_draw tetromino self :
  all_tiles Q self -> all_tiles Q (state_of (draw_tetromino tetromino self)).
Proof using Q_blyt.
  intros HQ. unfold draw_tetromino.
  apply (for_state (all_tiles Q)); [|done].
  intros mino s Hs. by apply all_tiles_blyt.
Qed.

Lemma all_tiles_exec o self : all_tiles Q self -> all_tiles Q (exec o self).
Proof using Q_blyt Q_clear.
  intros HQ. destruct o; simpl.
  - by apply all_tiles_blyt.
  - by apply all_tiles_clear.
  - by apply all_tiles_draw.
  - done.
  - unfold Game.drain. by rewrite drain_eq.
  - done.
Qed.

(** An invariant of the tiles that the initial blit establishes and
    that blits and clears keep holds of every reachable playfield. *)
Lemma reachable_all_tiles self : reachable self -> all_tiles Q self.
Proof using Q_init Q_blyt Q_clear.
  induction 1 as [rows columns l srf rects sr sc self Hc | self o _ IH].
  - apply init_constructed in Hc as (a & Ha & ->).
    apply reshape_inr in Ha as [Hdata Hwf].
    split; simpl.
    + unfold wf in *; simpl. by rewrite length_fmap, <- Hdata.
    + apply Forall_fmap, Forall_forall. intros t _. apply Q_init.
  - by apply all_tiles_exec.
Qed.

End Invariant.

Lemma stamped_init srf t : stamped srf (tile_blyt srf t).
Proof.
  unfold stamped; simpl. destruct (hold t); simpl; [by left|].
  right. rewrite length_app; simpl. lia.
Qed.

Lemma stamped_blyt bg srf t : stamped bg t -> stamped bg (tile_blyt srf t).
Proof.
  unfold stamped; simpl. rewrite length_app; simpl.
  intros [->|Hlen]; right; simpl; lia.
Qed.

Lemma stamped_clear bg t : stamped bg t -> stamped bg (tile_clear bg t).
Proof.
  intros Ht. unfold tile_clear. destruct (Tile.is_empty t); [done|]. by left.
Qed.




Lemma is_empty_length t : Tile.is_empty t = true <-> length (hold t) <= 1.
Proof.
  unfold Tile.is_empty. destruct (hold t) as [|x [|y l]]; simpl; split; (done || lia).
Qed.

Lemma is_empty_false_length t : Tile.is_empty t = false <-> 1 < length (hold t).
Proof.
  unfold Tile.is_empty. destruct (hold t) as [|x [|y l]]; simpl; split; (done || lia).
Qed.

End PlayfieldFacts.

(** * Placement on grid cells *)

Section PlacementFacts.

Import Playfield.

Implicit Types (self : Playfield) (t : Tile) (srf : Surface) (i : nat).

(** The position of an in-grid cell in the row-major data. *)
Lemma flat_index_in_grid self (r c : Z) :
  in_grid self r c ->
  flat_index (tile_array self) r c =
  Some (Z.to_nat r * (shape (tile_array self)).2 + Z.to_nat c).
Proof.
  intros [Hr Hc]. unfold flat_index. by rewrite !axis_index_in.
Qed.

Lemma tile_at_in_grid self (r c : Z) :
  wf (tile_array self) -> in_grid self r c -> is_Some (tile_at self r c).
Proof.
  intros Hwf Hin. unfold tile_at. rewrite flat_index_in_grid by done. simpl.
  apply lookup_lt_is_Some_2. eapply flat_index_lt; [done|].
  by apply flat_index_in_grid.
Qed.

(** Distinct in-grid cells have distinct positions. *)
Lemma flat_position_inj (cols r1 c1 r2 c2 : nat) :
  c1 < cols -> c2 < cols ->
  r1 * cols + c1 = r2 * cols + c2 -> r1 = r2 /\ c1 = c2.
Proof. intros H1 H2 Heq. assert (r1 = r2) by nia. subst. lia. Qed.

(** Blits of one image at in-grid cells, seen from one in-grid cell: the
    images that reach it are as many as the cells that coincide with
    it. *)
Lemma blits_on_cell {A} (xs : list A) (rw col : A -> Z) srf self (r c : Z) :
  in_grid self r c ->
  Forall (fun x => in_grid self (rw x) (col x)) xs ->
  snd <$> filter (fun p => p.1 = Z.to_nat r * (shape (tile_array self)).2 + Z.to_nat c)
            ((fun x => (Z.to_nat (rw x) * (shape (tile_array self)).2 + Z.to_nat (col x), srf))
               <$> xs) =
  replicate (length (filter (fun x => rw x = r /\ col x = c) xs)) srf.
Proof.
  intros [Hr Hc]. induction 1 as [|x xs [Hxr Hxc] _ IH]; [done|].
  rewrite fmap_cons, !filter_cons. simpl.
  case_decide as Hp; case_decide as Hx; simpl.
  - by rewrite <- IH.
  - exfalso. apply Hx. apply flat_position_inj in Hp as [? ?]; lia.
  - exfalso. apply Hp. destruct Hx as [-> ->]. done.
  - done.
Qed.

(** The rectangles of blits at in-grid cells: one per blit, that of
    the tile of its cell. *)
Lemma blit_rects_in_grid {A} (xs : list A) (rw col : A -> Z) srf self :
  wf (tile_array self) ->
  Forall (fun x => in_grid self (rw x) (col x)) xs ->
  Forall2 (fun x rect => exists t, tile_at self (rw x) (col x) = Some t /\
                                   rect = rect_blyt srf t)
    xs
    (omap (rect_at self)
       ((fun x => (Z.to_nat (rw x) * (shape (tile_array self)).2 + Z.to_nat (col x), srf))
          <$> xs)).
Proof.
  intros Hwf. induction 1 as [|x xs Hx _ IH]; [constructor|].
  destruct (tile_at_in_grid self _ _ Hwf Hx) as [t Ht].
  rewrite fmap_cons. simpl.
  assert (rect_at self
            (Z.to_nat (rw x) * (shape (tile_array self)).2 + Z.to_nat (col x), srf) =
          Some (rect_blyt srf t)) as ->.
  { unfold tile_at in Ht. rewrite flat_index_in_grid in Ht by done. simpl in Ht.
    unfold rect_at; simpl. by rewrite Ht. }
  constructor; [by exists t | done].
Qed.

End PlacementFacts.

(** * The claims of the specification *)

(** ** The dirty list *)

(** Claim C5, as amended.  For every tracker state and every batch of
    rectangles that is not empty, and for the empty batch whenever the
    peak is at least the current length, [extendr] leaves the tracker in
    the state (pending sequence, [added_items], [max_items]) that
    appending the elements one by one with [appendr] leaves it in; and
    [added_items] grows by the batch size. *)
Theorem extendr_as_appends (itr : list Rect) (self : Rectlist) :
  itr <> [] \/ Rectlist.len self <= max_items self ->
  Rectlist.extendr itr self = Rectlist.appendr_each itr self /\
  added_items (Rectlist.extendr itr self) = added_items self + length itr.
Proof.
  intros Hcase. rewrite extendr_eq. split; [|done].
  destruct itr as [|item itr].
  - destruct Hcase as [Hne|Hle]; [done|]. simpl.
    rewrite app_nil_r, !Nat.add_0_r.
    destruct self as [l m a]; unfold Rectlist.len in *; simpl in *. f_equal. lia.
  - by rewrite appendr_each_eq.
Qed.

Lemma extendr_as_appends_witness :
  Rectlist.extendr [mkRect 0 0 36 36; mkRect 36 0 36 36] Example.after_reset =
    Rectlist.appendr_each [mkRect 0 0 36 36; mkRect 36 0 36 36] Example.after_reset /\
  added_items (Rectlist.extendr [mkRect 0 0 36 36; mkRect 36 0 36 36] Example.after_reset) =
    added_items Example.after_reset + 2.
Proof.
  apply (extendr_as_appends [mkRect 0 0 36 36; mkRect 36 0 36 36] Example.after_reset).
  left. discriminate.
Defined.

(** Claim C5 as stated fails for the empty batch on a tracker whose peak
    was reset while a rectangle was pending: [extendr] raises the peak to
    the current length, no append leaves it at 0. *)
Lemma extendr_empty_batch_differs :
  max_items (Rectlist.extendr [] Example.after_reset) = 1 /\
  max_items (Rectlist.appendr_each [] Example.after_reset) = 0 /\
  Rectlist.extendr [] Example.after_reset <> Rectlist.appendr_each [] Example.after_reset.
Proof. split; [reflexivity|]. split; [reflexivity|]. discriminate. Qed.

(** Claim C6.  Across every sequence of append, extend and drain
    operations [max_items] never decreases, and after each of them it is
    at least the number of pending rectangles; [added_items] grows by one
    with every [appendr], also when the peak stays where it was, and by
    the batch size with every [extendr]. *)
Theorem peak_monotone_added_counts :
  (forall self os1 os2,
     max_items (Rectlist.run self os1) <= max_items (Rectlist.run self (os1 ++ os2))) /\
  (forall self os o,
     Rectlist.len (Rectlist.run self (os ++ [o])) <= max_items (Rectlist.run self (os ++ [o]))) /\
  (forall self item,
     added_items (Rectlist.appendr item self) = S (added_items self)) /\
  (forall self item,
     Rectlist.len self < max_items self ->
     max_items (Rectlist.appendr item self) = max_items self /\
     added_items (Rectlist.appendr item self) = S (added_items self)) /\
  (forall self itr,
     added_items (Rectlist.extendr itr self) = added_items self + length itr).
Proof.
  repeat split.
  - intros self os1 os2. rewrite run_app. apply run_max_mono.
  - intros self os o. rewrite run_app. simpl. apply step_len_le_max.
  - intros self item. by rewrite appendr_eq.
  - rewrite appendr_eq; simpl. lia.
  - by rewrite appendr_eq.
  - intros self itr. by rewrite extendr_eq.
Qed.

(** ** Construction *)

(** Claim C4.  From [rows * columns] tiles and a new tracker a playfield
    is constructed exactly when neither dimension is negative and numpy
    can hold an array of that shape (a dimension of 0 next to a huge one
    is an array too big, and raises).  Every playfield so constructed
    leaves [rows * columns] rectangles pending, with [added_items] and
    [max_items] both [rows * columns]; the drain hands all of them to the
    display and leaves the tracker empty with both counters as they were;
    draining again, or draining any empty tracker, returns the empty
    sequence, changes nothing and does not raise. *)
Theorem dirty_count_conservation (rows columns : Z) (sequence : list Tile)
    (srf : Surface) (sr sc : Z) :
  Z.of_nat (length sequence) = (rows * columns)%Z ->
  ((0 <= rows)%Z /\ (0 <= columns)%Z /\ fits_array rows columns <->
   exists self,
     Playfield.init rows columns sequence srf Rectlist.init sr sc =
     Playfield.Constructed self) /\
  (forall self,
     Playfield.init rows columns sequence srf Rectlist.init sr sc =
     Playfield.Constructed self ->
     exists self',
       Z.of_nat (Rectlist.len (rects_to_update self)) = (rows * columns)%Z /\
       Z.of_nat (added_items (rects_to_update self)) = (rows * columns)%Z /\
       Z.of_nat (max_items (rects_to_update self)) = (rows * columns)%Z /\
       Game.drain self = Val (items (rects_to_update self)) self' /\
       items (rects_to_update self') = [] /\
       added_items (rects_to_update self') = added_items (rects_to_update self) /\
       max_items (rects_to_update self') = max_items (rects_to_update self) /\
       tile_array self' = tile_array self /\
       Game.drain self' = Val [] self') /\
  (forall rects, items rects = [] -> Rectlist.drain rects = inr ([], rects)).
Proof.
  intros Hlen. split; [|split].
  - split.
    + intros (Hr & Hc & Hfits). eexists. by apply init_ok.
    + intros [self Hinit]. by eapply init_exact_constructed.
  - intros self Hinit.
    destruct (init_exact_constructed _ _ _ _ _ _ _ _ Hlen Hinit) as (Hr & Hc & Hfits).
    rewrite (init_ok rows columns sequence srf Rectlist.init sr sc Hr Hc Hfits Hlen) in Hinit.
    injection Hinit as <-. eexists. simpl.
    assert (Rectlist.appendr_each (rect_blyt srf <$> sequence) Rectlist.init =
            mkRectlist (rect_blyt srf <$> sequence) (length sequence) (length sequence)) as ->.
    { destruct sequence as [|t l]; [done|].
      rewrite fmap_cons, appendr_each_eq. simpl. by rewrite length_fmap. }
    unfold Rectlist.len; simpl. rewrite length_fmap.
    do 3 (split; [done|]).
    unfold Game.drain; simpl. rewrite drain_eq; simpl.
    split; [reflexivity|]. simpl. do 4 (split; [done|]). reflexivity.
  - intros [l m a]; simpl; intros ->. by rewrite drain_eq.
Qed.

Lemma dirty_count_conservation_witness :
  ((0 <= 24)%Z /\ (0 <= 10)%Z /\ fits_array 24 10 <->
   exists self,
     Playfield.init 24 10 Example.tiles Example.tile_img Rectlist.init 3 4 =
     Playfield.Constructed self) /\
  (forall self,
     Playfield.init 24 10 Example.tiles Example.tile_img Rectlist.init 3 4 =
     Playfield.Constructed self ->
     exists self',
       Z.of_nat (Rectlist.len (rects_to_update self)) = (24 * 10)%Z /\
       Z.of_nat (added_items (rects_to_update self)) = (24 * 10)%Z /\
       Z.of_nat (max_items (rects_to_update self)) = (24 * 10)%Z /\
       Game.drain self = Val (items (rects_to_update self)) self' /\
       items (rects_to_update self') = [] /\
       added_items (rects_to_update self') = added_items (rects_to_update self) /\
       max_items (rects_to_update self') = max_items (rects_to_update self) /\
       tile_array self' = tile_array self /\
       Game.drain self' = Val [] self') /\
  (forall rects, items rects = [] -> Rectlist.drain rects = inr ([], rects)).
Proof.
  apply (dirty_count_conservation 24 10 Example.tiles Example.tile_img 3 4).
  reflexivity.
Defined.

(** Claim C3, as amended.  For all [rows] and [columns] that are not
    negative, construction from a tile sequence whose length is not
    [rows * columns] raises [ValueError], the shape mismatch, without
    building a playfield and without touching the tracker.  From exactly
    [rows * columns] tiles it succeeds when numpy can hold an array of
    that shape, and yields a [rows] by [columns] grid holding the given
    tiles in row-major order: cell [(r, c)] is tile [r * columns + c] of
    the sequence; when the array would be too big (which takes a
    dimension of 0 next to a huge one) it raises [ValueError] as well. *)
Theorem init_checks_shape (rows columns : Z) (sequence : list Tile)
    (srf : Surface) (rects : Rectlist) (sr sc : Z) :
  (0 <= rows)%Z -> (0 <= columns)%Z ->
  (Z.of_nat (length sequence) <> (rows * columns)%Z ->
   Playfield.init rows columns sequence srf rects sr sc = Playfield.Failed ValueError rects) /\
  (Z.of_nat (length sequence) = (rows * columns)%Z -> fits_array rows columns ->
   exists self,
     Playfield.init rows columns sequence srf rects sr sc = Playfield.Constructed self /\
     shape (tile_array self) = (Z.to_nat rows, Z.to_nat columns) /\
     length (data (tile_array self)) = length sequence /\
     surface <$> data (tile_array self) = surface <$> sequence /\
     (forall r c, r < Z.to_nat rows -> c < Z.to_nat columns ->
        flat_index (tile_array self) (Z.of_nat r) (Z.of_nat c) =
        Some (r * Z.to_nat columns + c))) /\
  (~ fits_array rows columns ->
   Playfield.init rows columns sequence srf rects sr sc = Playfield.Failed ValueError rects).
Proof.
  intros Hr Hc. split; [|split].
  - intros Hlen. unfold Playfield.init. by rewrite reshape_mismatch.
  - intros Hlen Hfits. eexists. split; [by apply init_ok|]. simpl.
    split; [done|]. split; [by rewrite length_fmap|].
    split; [by rewrite <- list_fmap_compose|].
    intros r c Hlr Hlc. by rewrite flat_index_nat.
  - intros Hfits. by apply init_too_big.
Qed.

Lemma init_checks_shape_witness :
  Playfield.init 24 10 Example.ten_tiles Example.tile_img Rectlist.init 3 4 =
    Playfield.Failed ValueError Rectlist.init /\
  (exists self,
     Playfield.init 24 10 Example.tiles Example.tile_img Rectlist.init 3 4 =
       Playfield.Constructed self /\
     shape (tile_array self) = (Z.to_nat 24, Z.to_nat 10) /\
     length (data (tile_array self)) = length Example.tiles /\
     surface <$> data (tile_array self) = surface <$> Example.tiles /\
     (forall r c, r < Z.to_nat 24 -> c < Z.to_nat 10 ->
        flat_index (tile_array self) (Z.of_nat r) (Z.of_nat c) =
        Some (r * Z.to_nat 10 + c))) /\
  Playfield.init 0 (2 ^ 62) [] Example.tile_img Rectlist.init 3 4 =
    Playfield.Failed ValueError Rectlist.init.
Proof.
  split; [|split].
  - destruct (init_checks_shape 24 10 Example.ten_tiles Example.tile_img Rectlist.init 3 4)
      as (Hmismatch & _ & _); [lia | lia |].
    apply Hmismatch. discriminate.
  - destruct (init_checks_shape 24 10 Example.tiles Example.tile_img Rectlist.init 3 4)
      as (_ & Hmatch & _); [lia | lia |].
    apply Hmatch; [reflexivity | unfold fits_array, itemsize, intp_max; lia].
  - destruct (init_checks_shape 0 (2 ^ 62) [] Example.tile_img Rectlist.init 3 4)
      as (_ & _ & Hbig); [lia | lia |].
    apply Hbig. unfold fits_array, itemsize, intp_max. lia.
Defined.

(** Claim C3 as stated fails for a negative dimension: numpy infers it.
    Ten tiles with [rows = -1] and [columns = 5] are not [rows * columns]
    tiles, yet construction succeeds, with a grid of 2 by 5.  It also
    fails for a grid too big for numpy: no tiles are exactly
    [0 * 2 ^ 62] tiles, yet construction raises. *)
Lemma init_infers_negative_dimension :
  (Z.of_nat (length Example.ten_tiles) <> (-1 * 5)%Z /\
   exists self,
     Playfield.init (-1) 5 Example.ten_tiles Example.tile_img Rectlist.init 3 4 =
       Playfield.Constructed self /\
     shape (tile_array self) = (2, 5)) /\
  (Z.of_nat (length (@nil Tile)) = (0 * 2 ^ 62)%Z /\
   Playfield.init 0 (2 ^ 62) [] Example.tile_img Rectlist.init 3 4 =
     Playfield.Failed ValueError Rectlist.init).
Proof.
  split.
  - split; [discriminate|]. eexists. split; [vm_compute; reflexivity | reflexivity].
  - split; [reflexivity | vm_compute; reflexivity].
Qed.

(** ** Blits *)

(** Claim C2, as amended.  A blit whose row is outside [[-rows, rows)] or
    whose column is outside [[-columns, columns)] raises [IndexError] and
    leaves every tile's hold and the tracker, pending rectangles and both
    counters, as they were.  ([blyt(rows, 0, img)] addresses column
    [rows] and fails this way on every grid with [columns <= rows]; an
    index in [[-n, 0)] is inside the range: it counts from the end.) *)
Theorem blyt_out_of_range (self : Playfield) (column row : Z) (srf : Surface) :
  (row < - Z.of_nat (shape (tile_array self)).1 \/
   Z.of_nat (shape (tile_array self)).1 <= row \/
   column < - Z.of_nat (shape (tile_array self)).2 \/
   Z.of_nat (shape (tile_array self)).2 <= column)%Z ->
  Playfield.blyt column row srf self = Exc IndexError self.
Proof.
  intros Hout. apply blyt_raises. unfold flat_index.
  destruct (axis_index row _) as [r|] eqn:Hr; [|done].
  destruct (axis_index column _) as [c|] eqn:Hc; [|done].
  destruct Hout as [H|[H|H]].
  - rewrite axis_index_out in Hr by lia. done.
  - rewrite axis_index_out in Hr by lia. done.
  - rewrite axis_index_out in Hc by lia. done.
Qed.

Lemma blyt_out_of_range_witness :
  Playfield.blyt 24 0 Example.piece_img Example.pf = Exc IndexError Example.pf.
Proof.
  apply (blyt_out_of_range Example.pf 24 0 Example.piece_img).
  right. right. right. vm_compute. discriminate.
Defined.

(** Claim C2 as stated fails at [blyt(-1, 0, img)]: on the 24 by 10 grid
    the call does not raise; it blits onto the last tile of row 0, whose
    hold and the tracker both grow. *)
Lemma blyt_negative_index_wraps :
  exists self',
    Playfield.blyt (-1) 0 Example.piece_img Example.pf = Val tt self' /\
    hold <$> data (tile_array Example.pf) !! 9 = Some [Example.tile_img] /\
    hold <$> data (tile_array self') !! 9 = Some [Example.tile_img; Example.piece_img] /\
    Rectlist.len (rects_to_update Example.pf) = 240 /\
    Rectlist.len (rects_to_update self') = 241.
Proof. eexists. split; [vm_compute; reflexivity|]. by vm_compute. Qed.

(** Claim C1, as amended.  For every piece and every playfield on which the cells
    [(spawn_row + mino.row + spawn_offset, spawn_column + mino.column)]
    of the piece's minoes are grid cells, [draw_tetromino] blits the
    piece's image once per mino at that cell: every grid cell's hold
    grows by one entry of the image per mino that lands on it, and the
    tracker gains, in mino order, the rectangle of each mino's tile.  In
    particular the I piece with minoes (0,0), (0,1), (0,2), (0,3) and
    spawn offset 0 at spawn anchor (3, 4) gives each of the tiles (3,4),
    (3,5), (3,6), (3,7) exactly one new entry and the tracker exactly 4
    rectangles. *)
Theorem draw_tetromino_places (self : Playfield) (tetromino : Tetromino) :
  wf (tile_array self) ->
  Forall (fun mino => in_grid self (mino_row self tetromino mino) (mino_column self mino))
         (minoes tetromino) ->
  exists self' rs,
    Playfield.draw_tetromino tetromino self = Val tt self' /\
    same_grid self self' /\
    (forall r c, in_grid self r c ->
       exists h, hold_at self r c = Some h /\
         hold_at self' r c =
         Some (h ++ replicate (minoes_at self tetromino r c) (img tetromino))) /\
    items (rects_to_update self') = items (rects_to_update self) ++ rs /\
    added_items (rects_to_update self') =
      added_items (rects_to_update self) + length (minoes tetromino) /\
    Forall2 (fun mino rect =>
               exists t, tile_at self (mino_row self tetromino mino) (mino_column self mino) = Some t /\
                         rect = rect_blyt (img tetromino) t)
            (minoes tetromino) rs /\
    (minoes tetromino = minoes (Tetromino_I (img tetromino)) ->
     spawn_offset tetromino = 0%Z -> spawn_row self = 3%Z -> spawn_column self = 4%Z ->
     length rs = 4 /\
     forall c, (4 <= c <= 7)%Z ->
       exists h, hold_at self 3 c = Some h /\
                 hold_at self' 3 c = Some (h ++ [img tetromino])).
Proof.
  intros Hwf Hin.
  set (cols := (shape (tile_array self)).2).
  set (idx := fun mino => Z.to_nat (mino_row self tetromino mino) * cols +
                          Z.to_nat (mino_column self mino)).
  set (ps := (fun mino => (idx mino, img tetromino)) <$> minoes tetromino).
  assert (Playfield.draw_tetromino tetromino self = Val tt (foldl blyt_cell self ps)) as Hdraw.
  { apply (for_blyt (minoes tetromino) (mino_column self) (mino_row self tetromino)
             (fun _ => img tetromino) idx self Hwf).
    eapply Forall_impl; [exact Hin|]. intros mino Hm. by apply flat_index_in_grid. }
  pose proof (foldl_blyt_cell_same_grid self ps) as Hgrid.
  assert (forall r c, in_grid self r c ->
            exists h, hold_at self r c = Some h /\
              hold_at (foldl blyt_cell self ps) r c =
              Some (h ++ replicate (minoes_at self tetromino r c) (img tetromino))) as Hholds.
  { intros r c Hrc.
    destruct (tile_at_in_grid self r c Hwf Hrc) as [t Ht].
    exists (hold t). unfold hold_at. rewrite Ht. split; [done|].
    unfold tile_at in *.
    rewrite (same_grid_flat_index _ _ _ _ Hgrid).
    rewrite flat_index_in_grid in * by done. simpl in *.
    rewrite (foldl_blyt_lookup ps self _ t Ht). simpl. do 2 f_equal.
    apply (blits_on_cell (minoes tetromino) (mino_row self tetromino) (mino_column self));
      done. }
  assert (Forall2 (fun mino rect =>
             exists t, tile_at self (mino_row self tetromino mino) (mino_column self mino) = Some t /\
                       rect = rect_blyt (img tetromino) t)
            (minoes tetromino) (omap (rect_at self) ps)) as Hrects.
  { apply (blit_rects_in_grid (minoes tetromino) (mino_row self tetromino) (mino_column self));
      done. }
  exists (foldl blyt_cell self ps), (omap (rect_at self) ps).
  split; [done|]. split; [done|]. split; [done|].
  rewrite foldl_blyt_rects.
  destruct (appendr_each_len_added (omap (rect_at self) ps) (rects_to_update self)) as [-> ->].
  pose proof (Forall2_length _ _ _ Hrects) as Hlen.
  split; [done|]. split; [by rewrite Hlen|]. split; [done|].
  intros Hminoes Hoff Hsr Hsc. split.
  - rewrite <- Hlen, Hminoes. done.
  - intros c Hc.
    assert (in_grid self 3 c) as Hrc.
    { assert (c = 4 \/ c = 5 \/ c = 6 \/ c = 7)%Z as Hcases by lia.
      rewrite Hminoes in Hin. unfold mino_row, mino_column in Hin.
      rewrite Hoff, Hsr, Hsc in Hin. simpl in Hin.
      inversion Hin as [|? ? H0 Hin1]; subst. inversion Hin1 as [|? ? H1 Hin2]; subst.
      inversion Hin2 as [|? ? H2 Hin3]; subst. inversion Hin3 as [|? ? H3 _]; subst.
      simpl in *. destruct Hcases as [-> | [-> | [-> | ->]]]; done. }
    destruct (Hholds 3%Z c Hrc) as (h & Hh & Hh'). exists h. split; [done|].
    rewrite Hh'. do 2 f_equal.
    unfold minoes_at, mino_row, mino_column. rewrite Hminoes, Hoff, Hsr, Hsc. simpl.
    rewrite !filter_cons, filter_nil. simpl.
    repeat case_decide; simpl; try done; exfalso; lia.
Qed.

Lemma draw_tetromino_places_witness :
  exists self' rs,
    Playfield.draw_tetromino (Tetromino_I Example.piece_img) Example.pf = Val tt self' /\
    same_grid Example.pf self' /\
    (forall r c, in_grid Example.pf r c ->
       exists h, hold_at Example.pf r c = Some h /\
         hold_at self' r c =
         Some (h ++ replicate (minoes_at Example.pf (Tetromino_I Example.piece_img) r c)
                      (img (Tetromino_I Example.piece_img)))) /\
    items (rects_to_update self') = items (rects_to_update Example.pf) ++ rs /\
    added_items (rects_to_update self') =
      added_items (rects_to_update Example.pf) +
      length (minoes (Tetromino_I Example.piece_img)) /\
    Forall2 (fun mino rect =>
               exists t, tile_at Example.pf
                           (mino_row Example.pf (Tetromino_I Example.piece_img) mino)
                           (mino_column Example.pf mino) = Some t /\
                         rect = rect_blyt (img (Tetromino_I Example.piece_img)) t)
            (minoes (Tetromino_I Example.piece_img)) rs /\
    (minoes (Tetromino_I Example.piece_img) =
       minoes (Tetromino_I (img (Tetromino_I Example.piece_img))) ->
     spawn_offset (Tetromino_I Example.piece_img) = 0%Z ->
     spawn_row Example.pf = 3%Z -> spawn_column Example.pf = 4%Z ->
     length rs = 4 /\
     forall c, (4 <= c <= 7)%Z ->
       exists h, hold_at Example.pf 3 c = Some h /\
                 hold_at self' 3 c = Some (h ++ [img (Tetromino_I Example.piece_img)])).
Proof.
  apply (draw_tetromino_places Example.pf (Tetromino_I Example.piece_img)).
  - vm_compute. reflexivity.
  - repeat constructor; vm_compute; discriminate.
Defined.

(** Claim C1 as stated fails for a piece with a mino outside the grid.
    On the 24 by 10 playfield with spawn anchor (3, 4), the piece with
    minoes (0,0), (0,6), (0,1) addresses column 10 with its second mino:
    [draw_tetromino] raises [IndexError] after the first blit, tile (3, 4)
    has gained the image, tile (3, 5) has not, and the tracker has gained
    one rectangle, not three.  The piece with the one mino (0,-5)
    addresses column -1, which is no grid cell: the call returns, and the
    image is on tile (3, 9). *)
Lemma draw_tetromino_outside_grid :
  (exists self',
     Playfield.draw_tetromino
       (mkTetromino [mkMino 0 0; mkMino 0 6; mkMino 0 1] 0 Example.piece_img) Example.pf =
       Exc IndexError self' /\
     hold_at self' 3 4 = Some [Example.tile_img; Example.piece_img] /\
     hold_at self' 3 5 = Some [Example.tile_img] /\
     hold_at self' 3 10 = None /\
     Rectlist.len (rects_to_update self') = Rectlist.len (rects_to_update Example.pf) + 1 /\
     added_items (rects_to_update self') = added_items (rects_to_update Example.pf) + 1) /\
  (exists self',
     Playfield.draw_tetromino (mkTetromino [mkMino 0 (-5)] 0 Example.piece_img) Example.pf =
       Val tt self' /\
     ~ in_grid Example.pf 3 (-1) /\
     hold_at self' 3 9 = Some [Example.tile_img; Example.piece_img]).
Proof.
  split.
  - eexists. split; [vm_compute; reflexivity|]. repeat split; vm_compute; reflexivity.
  - eexists. split; [vm_compute; reflexivity|]. split; [|vm_compute; reflexivity].
    intros [_ [Hc _]]. lia.
Qed.

(** Claim C8.  After [N] blits onto one tile, with no clear in between,
    the tile's hold is its initial hold followed by the [N] images, so its
    length is the initial length plus [N]; [is_empty()] is true exactly
    when the hold has at most one entry, hence on a tile holding only its
    background it is false exactly when at least one further blit has
    occurred. *)
Theorem hold_history (self : Playfield) (column row : Z) (srfs : list Surface) :
  wf (tile_array self) ->
  is_Some (flat_index (tile_array self) row column) ->
  exists self' t t',
    for_ srfs (Playfield.blyt column row) self = Val tt self' /\
    tile_at self row column = Some t /\
    tile_at self' row column = Some t' /\
    hold t' = hold t ++ srfs /\
    length (hold t') = length (hold t) + length srfs /\
    (Tile.is_empty t' = true <-> length (hold t') <= 1) /\
    (length (hold t) = 1 -> (Tile.is_empty t' = false <-> 1 <= length srfs)) /\
    (forall t0, Tile.is_empty t0 = true <-> length (hold t0) <= 1).
Proof.
  intros Hwf [i Hi].
  pose proof (flat_index_lt _ _ _ _ Hwf Hi) as Hlt.
  apply lookup_lt_is_Some_2 in Hlt as [t Ht].
  set (ps := (fun srf => (i, srf)) <$> srfs).
  assert (for_ srfs (Playfield.blyt column row) self = Val tt (foldl blyt_cell self ps)) as Hrun.
  { apply (for_blyt srfs (fun _ => column) (fun _ => row) (fun srf => srf) (fun _ => i) self Hwf).
    by apply Forall_forall. }
  assert (snd <$> filter (fun p : nat * Surface => p.1 = i) ps = srfs) as Hsrfs.
  { unfold ps. clear. induction srfs as [|srf srfs IH]; [done|].
    rewrite fmap_cons, filter_cons_True by done. rewrite fmap_cons. by rewrite IH. }
  pose proof (foldl_blyt_lookup ps self i t Ht) as Ht'. rewrite Hsrfs in Ht'.
  eexists _, t, _. split; [exact Hrun|].
  unfold tile_at.
  rewrite (same_grid_flat_index _ _ _ _ (foldl_blyt_cell_same_grid self ps)), Hi. simpl.
  split; [done|]. split; [exact Ht'|]. simpl.
  split; [done|]. split; [by rewrite length_app|].
  split; [apply is_empty_length|].
  split; [|apply is_empty_length].
  intros H1. rewrite is_empty_false_length. simpl. rewrite length_app. lia.
Qed.

Lemma hold_history_witness :
  exists self' t t',
    for_ [Example.piece_img; Example.piece_img] (Playfield.blyt 4 3) Example.pf = Val tt self' /\
    tile_at Example.pf 3 4 = Some t /\
    tile_at self' 3 4 = Some t' /\
    hold t' = hold t ++ [Example.piece_img; Example.piece_img] /\
    length (hold t') = length (hold t) + length [Example.piece_img; Example.piece_img] /\
    (Tile.is_empty t' = true <-> length (hold t') <= 1) /\
    (length (hold t) = 1 ->
     (Tile.is_empty t' = false <-> 1 <= length [Example.piece_img; Example.piece_img])) /\
    (forall t0, Tile.is_empty t0 = true <-> length (hold t0) <= 1).
Proof.
  apply (hold_history Example.pf 4 3 [Example.piece_img; Example.piece_img]).
  - vm_compute. reflexivity.
  - vm_compute. eexists. reflexivity.
Defined.

(** ** Clearing *)

Lemma tile_clear_stamped (bg : Surface) (t : Tile) :
  stamped bg t -> hold (tile_clear bg t) = [bg].
Proof.
  unfold tile_clear. destruct (Tile.is_empty t) eqn:Hempty; [|done].
  apply is_empty_length in Hempty. intros [Ht|Ht]; [done|lia].
Qed.

(** Clearing tiles none of which is occupied changes neither the tiles
    nor the dirty list. *)
Lemma clear_unoccupied (bg : Surface) (l : list Tile) (rects : Rectlist) :
  Forall (fun t => Tile.is_empty t = true) l ->
  tile_clear bg <$> l = l /\
  foldl (fun rects t => rects_clear bg t rects) rects l = rects.
Proof.
  induction 1 as [|t l Ht _ [IH1 IH2]]; [done|].
  rewrite fmap_cons, IH1. simpl. unfold tile_clear, rects_clear at 2. rewrite Ht.
  by rewrite IH2.
Qed.

(** Claim C7.  On every reachable playfield the first [clear_all_tiles]
    resets each occupied tile's hold and stamps it with the background
    image again, so that afterwards every tile's hold is [[background]];
    a second call right after changes no tile's hold (and appends no
    rectangle): two calls leave the holds one call leaves. *)
Theorem clear_all_tiles_idempotent (self : Playfield) :
  reachable self ->
  exists self1,
    Playfield.clear_all_tiles self = Val tt self1 /\
    data (tile_array self1) = tile_clear (empty_tile_img self) <$> data (tile_array self) /\
    Forall (fun t => hold t = [empty_tile_img self]) (data (tile_array self1)) /\
    Playfield.clear_all_tiles self1 = Val tt self1 /\
    holds (state_of (Playfield.clear_all_tiles self1)) = holds self1.
Proof.
  intros Hreach.
  destruct (reachable_all_tiles stamped stamped_init stamped_blyt stamped_clear self Hreach)
    as [Hwf Hbg].
  rewrite clear_all_tiles_eq by done.
  set (bg := empty_tile_img self) in *.
  set (self1 := set_cells _ _ self).
  assert (Forall (fun t => hold t = [bg]) (data (tile_array self1))) as Hcleared.
  { simpl. apply Forall_fmap. eapply Forall_impl; [exact Hbg|].
    intros t Ht. by apply tile_clear_stamped. }
  assert (Playfield.clear_all_tiles self1 = Val tt self1) as Hagain.
  { rewrite clear_all_tiles_eq by (unfold wf in *; simpl; by rewrite length_fmap).
    destruct (clear_unoccupied (empty_tile_img self1) (data (tile_array self1))
                (rects_to_update self1)) as [-> ->].
    - eapply Forall_impl; [exact Hcleared|]. intros t Ht.
      unfold Tile.is_empty. by rewrite Ht.
    - by rewrite set_cells_id. }
  exists self1. split; [done|]. split; [done|]. split; [done|]. split; [done|].
  by rewrite Hagain.
Qed.

Lemma example_reachable : reachable Example.pf.
Proof.
  apply (reachable_init 24 10 Example.tiles Example.tile_img Rectlist.init 3 4).
  vm_compute. reflexivity.
Defined.

Lemma clear_all_tiles_idempotent_witness :
  exists self1,
    Playfield.clear_all_tiles Example.pf_I = Val tt self1 /\
    data (tile_array self1) =
      tile_clear (empty_tile_img Example.pf_I) <$> data (tile_array Example.pf_I) /\
    Forall (fun t => hold t = [empty_tile_img Example.pf_I]) (data (tile_array self1)) /\
    Playfield.clear_all_tiles self1 = Val tt self1 /\
    holds (state_of (Playfield.clear_all_tiles self1)) = holds self1.
Proof.
  apply (clear_all_tiles_idempotent Example.pf_I).
  apply reachable_exec. exact example_reachable.
Defined.



(** ** The piece generator *)

Lemma next_in_range_bounds (low high : Z) (source : generator.RandomSource) :
  (low <= high)%Z ->
  (low <= (generator.next_in_range low high source).1 <= high)%Z.
Proof.
  intros Hle. unfold generator.next_in_range; simpl.
  pose proof (Z.mod_pos_bound (generator.raw source (generator.position source))
                (high - low + 1)) as Hmod.
  lia.
Qed.

Lemma spawn_many_spec (n : nat) (self : generator.Unpacker) :
  generator.packer self = generator.no_rules ->
  (0 < generator.variant_count self)%Z ->
  length (generator.spawn_many n self).1 = n /\
  Forall (fun index => 0 <= index <= generator.variant_count self - 1)%Z
         (generator.spawn_many n self).1 /\
  generator.position (generator.rs (generator.spawn_many n self).2) =
    generator.position (generator.rs self) + n /\
  generator.raw (generator.rs (generator.spawn_many n self).2) =
    generator.raw (generator.rs self) /\
  generator.variant_count (generator.spawn_many n self).2 = generator.variant_count self /\
  generator.packer (generator.spawn_many n self).2 = generator.packer self.
Proof.
  revert self. induction n as [|n IH]; intros self Hp Hv; simpl.
  - repeat split; [constructor | lia].
  - unfold generator.spawn_next, generator.draw. rewrite Hp. simpl.
    set (self' := generator.mkUnpacker _ _ _).
    destruct (IH self' eq_refl Hv) as (Hlen & Hall & Hpos & Hraw & Hvc & Hpk).
    destruct (generator.spawn_many n self') as [rest self'']; simpl in *.
    repeat split; try done; try lia.
    constructor; [|done].
    pose proof (next_in_range_bounds 0 (generator.variant_count self - 1) (generator.rs self)) as Hb.
    simpl in Hb. lia.
Qed.

(** Claim C9.  A generator configured with the "no rules" policy and 7
    variants is accepted, and for every number of draws every index
    [spawn_next()] returns lies in [[0, 6]]; every draw advances the
    random source by one position, so [n] draws leave it [n] positions
    further in the same sequence. *)
Theorem spawn_next_in_range (source : generator.RandomSource) :
  exists self,
    generator.init generator.no_rules 7 source = inr self /\
    generator.rs self = source /\
    (forall n,
       length (generator.spawn_many n self).1 = n /\
       Forall (fun index => 0 <= index <= 6)%Z (generator.spawn_many n self).1 /\
       generator.position (generator.rs (generator.spawn_many n self).2) =
         generator.position source + n /\
       generator.raw (generator.rs (generator.spawn_many n self).2) = generator.raw source /\
       (0 <= (generator.spawn_next (generator.spawn_many n self).2).1 <= 6)%Z /\
       generator.position
         (generator.rs (generator.spawn_next (generator.spawn_many n self).2).2) =
         S (generator.position (generator.rs (generator.spawn_many n self).2))).
Proof.
  eexists. split; [reflexivity|]. split; [reflexivity|]. intros n.
  set (self := generator.mkUnpacker generator.no_rules 7 source).
  destruct (spawn_many_spec n self eq_refl) as (Hlen & Hall & Hpos & Hraw & Hvc & Hpk); [done|].
  split; [done|]. split; [exact Hall|]. split; [done|]. split; [done|].
  unfold generator.spawn_next, generator.draw. rewrite Hpk, Hvc. simpl.
  split; [|done].
  apply (next_in_range_bounds 0 6 (generator.rs (generator.spawn_many n self).2)). lia.
Qed.

(** * Further properties of the code *)

(** ** The dirty list over a whole trace *)

Lemma step_items (self : Rectlist) (o : Rectlist.op) :
  items (Rectlist.step self o) =
  match o with
  | Rectlist.Drain => []
  | _ => items self ++ appended o
  end.
Proof.
  destruct o as [r|rs|]; simpl.
  - by rewrite appendr_eq.
  - by rewrite extendr_eq.
  - by rewrite drain_eq.
Qed.

Lemma step_added (self : Rectlist) (o : Rectlist.op) :
  added_items (Rectlist.step self o) = added_items self + length (appended o).
Proof.
  destruct o as [r|rs|]; simpl.
  - rewrite appendr_eq; simpl. lia.
  - by rewrite extendr_eq.
  - rewrite drain_eq; simpl. lia.
Qed.


(** X1.  The pending rectangles are always exactly those appended since
    the last drain, oldest first, whatever the counters were reset to;
    [added_items] counts every rectangle appended since it was last reset
    and no drain lowers it. *)
Theorem pending_and_added_over_trace (self : Rectlist) (os : list Rectlist.op) :
  items (Rectlist.run self os) = pending_after (items self) os /\
  added_items (Rectlist.run self os) = added_items self + added_by os /\
  added_items (Rectlist.run (Rectlist.reset self) os) = added_by os /\
  added_items (Rectlist.run (Rectlist.reset_added self) os) = added_by os /\
  items (Rectlist.run (Rectlist.reset self) os) = items (Rectlist.run self os).
Proof.
  assert (forall self, items (Rectlist.run self os) = pending_after (items self) os) as Hitems.
  { clear self. induction os as [|o os IH]; intros self; simpl; [done|].
    rewrite IH, step_items. by destruct o. }
  assert (forall self, added_items (Rectlist.run self os) = added_items self + added_by os)
    as Hadded.
  { clear self Hitems. induction os as [|o os IH]; intros self.
    - unfold added_by; simpl. lia.
    - change (Rectlist.run self (o :: os)) with (Rectlist.run (Rectlist.step self o) os).
      rewrite IH, step_added.
      change (added_by (o :: os)) with (length (appended o) + added_by os). lia. }
  split; [apply Hitems|]. split; [apply Hadded|].
  split; [by rewrite Hadded|]. split; [by rewrite Hadded|].
  by rewrite !Hitems.
Qed.


(** X3.  The deletion loop of the frame removes elements from the front:
    run for at most as many rounds as there are pending rectangles it
    leaves the others in order, with both counters untouched; run for
    more rounds it raises [IndexError].  The drain counts the rounds from
    the list itself and so never raises, on any tracker: it returns every
    pending rectangle, oldest first, and leaves none. *)
Theorem deletion_loop (n : nat) (self : Rectlist) :
  Rectlist.del_loop n self =
    (if decide (n <= Rectlist.len self)
     then inr (mkRectlist (drop n (items self)) (max_items self) (added_items self))
     else inl IndexError) /\
  Rectlist.drain self =
    inr (items self, mkRectlist [] (max_items self) (added_items self)).
Proof.
  split; [|apply drain_eq].
  case_decide as Hn; [by apply del_loop_eq|].
  revert self Hn. induction n as [|n IH]; intros [l m a]; unfold Rectlist.len; simpl; [lia|].
  intros Hlt. destruct l as [|x l]; [done|]. unfold Rectlist.del_first; simpl.
  apply IH. unfold Rectlist.len; simpl in *. lia.
Qed.

(** ** Tiles of the game window *)

Section SetupFacts.

Import Setup.

Implicit Types (cfg : Config) (img : Surface) (t : Tile).

Lemma row_cells_length (y n : nat) : length ((fun x => (y, x)) <$> range n) = n.
Proof. unfold range. by rewrite length_fmap, length_seq. Qed.

Lemma cells_from_lookup (a n columns k x : nat) :
  k < n -> x < columns ->
  (seq a n ≫= fun y => (fun x => (y, x)) <$> range columns) !! (k * columns + x) =
  Some (a + k, x).
Proof.
  revert a k. induction n as [|n IH]; intros a k Hk Hx; [lia|].
  change (seq a (S n)) with (a :: seq (S a) n). rewrite bind_cons. destruct k as [|k].
  - rewrite lookup_app_l by (rewrite row_cells_length; lia). simpl.
    unfold range. rewrite list_lookup_fmap, lookup_seq_lt by done. simpl.
    by rewrite Nat.add_0_r.
  - rewrite lookup_app_r by (rewrite row_cells_length; lia).
    rewrite row_cells_length.
    replace (S k * columns + x - columns) with (k * columns + x) by lia.
    rewrite IH by lia. f_equal. f_equal. lia.
Qed.

Lemma cells_from_length (a n columns : nat) :
  length (seq a n ≫= fun y => (fun x => (y, x)) <$> range columns) = n * columns.
Proof.
  revert a. induction n as [|n IH]; intros a; [done|].
  change (seq a (S n)) with (a :: seq (S a) n).
  rewrite bind_cons, length_app, row_cells_length, IH. done.
Qed.

Lemma cells_lookup (rows columns : Z) (y x : nat) :
  y < Z.to_nat rows -> x < Z.to_nat columns ->
  cells rows columns !! (y * Z.to_nat columns + x) = Some (y, x).
Proof.
  intros Hy Hx.
  apply (cells_from_lookup 0 (Z.to_nat rows) (Z.to_nat columns) y x Hy Hx).
Qed.

Lemma cells_length (rows columns : Z) :
  length (cells rows columns) = Z.to_nat rows * Z.to_nat columns.
Proof. apply (cells_from_length 0 (Z.to_nat rows) (Z.to_nat columns)). Qed.

Lemma cells_elem (rows columns : Z) (c : nat * nat) :
  c ∈ cells rows columns <-> c.1 < Z.to_nat rows /\ c.2 < Z.to_nat columns.
Proof.
  unfold cells, range. rewrite list_elem_of_bind. split.
  - intros (y & Hc & Hy). apply list_elem_of_fmap in Hc as (x & -> & Hx).
    apply elem_of_seq in Hx, Hy. simpl. lia.
  - intros [Hy Hx]. exists c.1. split.
    + apply list_elem_of_fmap. exists c.2. split; [by destruct c|].
      apply elem_of_seq. lia.
    + apply elem_of_seq. lia.
Qed.

Lemma collect_all {A B} (f : A -> exn + B) (g : A -> B) (l : list A) :
  (forall x, x ∈ l -> f x = inr (g x)) -> collect (f <$> l) = inr (g <$> l).
Proof.
  induction l as [|x l IH]; intros Hf; [done|].
  rewrite !fmap_cons. simpl. rewrite (Hf x) by left.
  rewrite IH; [done|]. intros y Hy. apply Hf. by right.
Qed.

Lemma collect_raises {A B} (f : A -> exn + B) (e : exn) (l : list A) (x : A) :
  (forall y, y ∈ l -> f y = inl e \/ exists b, f y = inr b) ->
  x ∈ l -> f x = inl e -> collect (f <$> l) = inl e.
Proof.
  induction l as [|y l IH]; intros Hf Hx Hfx; [by apply elem_of_nil in Hx|].
  rewrite fmap_cons. simpl.
  destruct (Hf y) as [Hy|[b Hy]]; [by left | by rewrite Hy |]. rewrite Hy.
  apply elem_of_cons in Hx as [->|Hx]; [congruence|].
  rewrite IH; [done | | done | done]. intros z Hz. apply Hf. by right.
Qed.

Lemma c_int_id (z : Z) : (int_min <= z <= int_max)%Z -> c_int z = z.
Proof.
  unfold c_int, int_min, int_max. intros Hz.
  rewrite Z.mod_small by lia. lia.
Qed.

Lemma fits_long_int (z : Z) : (int_min <= z <= int_max)%Z -> fits_long z = true.
Proof.
  unfold fits_long, int_min, int_max. intros Hz.
  apply andb_true_iff. split; apply Z.leb_le; lia.
Qed.

(** Inside a grid whose coordinates are C ints, the rectangle of a cell
    is its place in the window, and its far sides are exact sums. *)
Lemma tile_rect_fits cfg img c :
  (0 < width img)%Z -> (0 < height img)%Z ->
  coordinates_fit cfg img ->
  c ∈ cells (playfield_rows cfg) (playfield_columns cfg) ->
  tile_rect cfg img c.1 c.2 = inr (cell_rect cfg img c.1 c.2) /\
  c_int (left (cell_rect cfg img c.1 c.2) + width img) =
    (left (cell_rect cfg img c.1 c.2) + width img)%Z /\
  c_int (top (cell_rect cfg img c.1 c.2) + height img) =
    (top (cell_rect cfg img c.1 c.2) + height img)%Z.
Proof.
  intros Hw Hh Hfit Hc. apply cells_elem in Hc as [Hy Hx].
  destruct Hfit as [Hr|[Hcol|(HW & HH & HX & HY & HXW & HYH)]]; [lia | lia |].
  assert (int_min <= 0)%Z as Hmin by (unfold int_min; lia).
  unfold tile_rect, cell_rect, Rect_init; simpl.
  set (X := (playfield_x_position cfg * playfield_fraction_of_vres cfg)%Z) in *.
  set (Y := (playfield_y_position cfg * playfield_fraction_of_vres cfg)%Z) in *.
  assert (int_min <= Z.of_nat c.2 * width img + X /\
          Z.of_nat c.2 * width img + X + width img <= int_max)%Z as [Hx1 Hx2] by nia.
  assert (int_min <= Z.of_nat c.1 * height img + Y /\
          Z.of_nat c.1 * height img + Y + height img <= int_max)%Z as [Hy1 Hy2] by nia.
  rewrite !fits_long_int, !c_int_id by lia. done.
Qed.

Lemma create_tile_cases cfg game_window img c :
  (0 < width img)%Z -> (0 < height img)%Z ->
  coordinates_fit cfg img ->
  c ∈ cells (playfield_rows cfg) (playfield_columns cfg) ->
  create_tile cfg game_window img c = inl ValueError \/
  create_tile cfg game_window img c = inr (Tile.init (tile_surface cfg game_window img c)).
Proof.
  intros Hw Hh Hfit Hc.
  destruct (tile_rect_fits cfg img c Hw Hh Hfit Hc) as (Hrect & _ & _).
  unfold create_tile. rewrite Hrect. unfold subsurface.
  destruct (_ || _ || _ || _); [by left | by right].
Qed.

Lemma create_tile_inside cfg game_window img c :
  (0 < width img)%Z -> (0 < height img)%Z ->
  coordinates_fit cfg img ->
  c ∈ cells (playfield_rows cfg) (playfield_columns cfg) ->
  (0 <= left (cell_rect cfg img c.1 c.2) /\ 0 <= top (cell_rect cfg img c.1 c.2) /\
   left (cell_rect cfg img c.1 c.2) + width img <= width game_window /\
   top (cell_rect cfg img c.1 c.2) + height img <= height game_window)%Z ->
  create_tile cfg game_window img c = inr (Tile.init (tile_surface cfg game_window img c)).
Proof.
  intros Hw Hh Hfit Hc (H1 & H2 & H3 & H4).
  destruct (tile_rect_fits cfg img c Hw Hh Hfit Hc) as (Hrect & Hright & Hbottom).
  unfold create_tile. rewrite Hrect. unfold subsurface.
  change (w (cell_rect cfg img c.1 c.2)) with (width img).
  change (h (cell_rect cfg img c.1 c.2)) with (height img).
  rewrite Hright, Hbottom.
  destruct (Z.ltb_spec (left (cell_rect cfg img c.1 c.2)) 0); [lia|].
  destruct (Z.ltb_spec (top (cell_rect cfg img c.1 c.2)) 0); [lia|].
  destruct (Z.ltb_spec (width game_window) (left (cell_rect cfg img c.1 c.2) + width img)); [lia|].
  destruct (Z.ltb_spec (height game_window) (top (cell_rect cfg img c.1 c.2) + height img)); [lia|].
  done.
Qed.

Lemma create_tile_outside cfg game_window img c :
  (0 < width img)%Z -> (0 < height img)%Z ->
  coordinates_fit cfg img ->
  c ∈ cells (playfield_rows cfg) (playfield_columns cfg) ->
  (left (cell_rect cfg img c.1 c.2) < 0 \/ top (cell_rect cfg img c.1 c.2) < 0 \/
   width game_window < left (cell_rect cfg img c.1 c.2) + width img \/
   height game_window < top (cell_rect cfg img c.1 c.2) + height img)%Z ->
  create_tile cfg game_window img c = inl ValueError.
Proof.
  intros Hw Hh Hfit Hc Hout.
  destruct (tile_rect_fits cfg img c Hw Hh Hfit Hc) as (Hrect & Hright & Hbottom).
  unfold create_tile. rewrite Hrect. unfold subsurface.
  change (w (cell_rect cfg img c.1 c.2)) with (width img).
  change (h (cell_rect cfg img c.1 c.2)) with (height img).
  rewrite Hright, Hbottom.
  destruct (Z.ltb_spec (left (cell_rect cfg img c.1 c.2)) 0); [done|].
  destruct (Z.ltb_spec (top (cell_rect cfg img c.1 c.2)) 0); [done|].
  destruct (Z.ltb_spec (width game_window) (left (cell_rect cfg img c.1 c.2) + width img));
    [done|].
  destruct (Z.ltb_spec (height game_window) (top (cell_rect cfg img c.1 c.2) + height img));
    [done|lia].
Qed.

Lemma create_playfield_tiles_inside cfg game_window img :
  (0 < width img)%Z -> (0 < height img)%Z ->
  coordinates_fit cfg img ->
  grid_fits cfg game_window img ->
  create_playfield_tiles cfg game_window img =
  inr ((fun c => Tile.init (tile_surface cfg game_window img c))
         <$> cells (playfield_rows cfg) (playfield_columns cfg)).
Proof.
  intros Hw Hh Hfit Hfits. unfold create_playfield_tiles.
  apply collect_all. intros c Hc. apply create_tile_inside; [done..|].
  apply cells_elem in Hc as [Hy Hx].
  destruct Hfits as [Hr|[Hcol|(HX & HY & HW & HH)]]; [lia | lia |].
  unfold cell_rect; simpl. repeat split; nia.
Qed.

Lemma create_playfield_tiles_outside cfg game_window img :
  (0 < width img)%Z -> (0 < height img)%Z ->
  coordinates_fit cfg img ->
  ~ grid_fits cfg game_window img ->
  create_playfield_tiles cfg game_window img = inl ValueError.
Proof.
  intros Hw Hh Hfit Hfits. unfold grid_fits in Hfits.
  assert (0 < playfield_rows cfg)%Z as Hr by lia.
  assert (0 < playfield_columns cfg)%Z as Hc by lia.
  unfold create_playfield_tiles.
  assert (exists c, c ∈ cells (playfield_rows cfg) (playfield_columns cfg) /\
                    create_tile cfg game_window img c = inl ValueError) as (c & Hin & Hout).
  { destruct (Z.lt_ge_cases (playfield_x_position cfg * playfield_fraction_of_vres cfg) 0).
    { assert ((0, 0) ∈ cells (playfield_rows cfg) (playfield_columns cfg)) as Hin
        by (apply cells_elem; simpl; lia).
      exists (0, 0). split; [done|].
      apply create_tile_outside; [done..|]. unfold cell_rect; simpl. lia. }
    destruct (Z.lt_ge_cases (playfield_y_position cfg * playfield_fraction_of_vres cfg) 0).
    { assert ((0, 0) ∈ cells (playfield_rows cfg) (playfield_columns cfg)) as Hin
        by (apply cells_elem; simpl; lia).
      exists (0, 0). split; [done|].
      apply create_tile_outside; [done..|]. unfold cell_rect; simpl. lia. }
    destruct (Z.lt_ge_cases (width game_window)
                (playfield_x_position cfg * playfield_fraction_of_vres cfg +
                 playfield_columns cfg * width img)).
    { assert ((0, Z.to_nat (playfield_columns cfg) - 1)
                ∈ cells (playfield_rows cfg) (playfield_columns cfg)) as Hin
        by (apply cells_elem; simpl; lia).
      eexists. split; [exact Hin|].
      apply create_tile_outside; [done..|]. unfold cell_rect; simpl. right. right. left.
      rewrite Nat2Z.inj_sub, Z2Nat.id by lia. lia. }
    assert ((Z.to_nat (playfield_rows cfg) - 1, 0)
              ∈ cells (playfield_rows cfg) (playfield_columns cfg)) as Hin
      by (apply cells_elem; simpl; lia).
    eexists. split; [exact Hin|].
    apply create_tile_outside; [done..|]. unfold cell_rect; simpl. right. right. right.
    rewrite Nat2Z.inj_sub, Z2Nat.id by lia. lia. }
  eapply collect_raises; [|exact Hin|exact Hout].
  intros y Hy. destruct (create_tile_cases cfg game_window img y) as [->| ->]; eauto.
Qed.

(** Outside those coordinates the rectangles are cut: a playfield
    configured [2 ^ 32] pixels to the right is built at the left edge of
    the window. *)
Lemma tile_rect_is_cut :
  create_playfield_tiles (mkConfig 10 24 1 (2 ^ 32) 0 3 4) default_window Example.tile_img =
    create_playfield_tiles (mkConfig 10 24 1 0 0 3 4) default_window Example.tile_img /\
  exists tiles,
    create_playfield_tiles (mkConfig 10 24 1 (2 ^ 32) 0 3 4) default_window Example.tile_img =
      inr tiles.
Proof.
  split; [vm_compute; reflexivity|]. eexists. vm_compute. reflexivity.
Qed.

#[local] Instance grid_fits_dec cfg game_window img :
  Decision (grid_fits cfg game_window img).
Proof. unfold grid_fits. apply _. Defined.

(** X4.  With a tile image of positive size and tile coordinates that
    are C ints, [create_playfield_tiles] yields all its tiles exactly
    when the grid of tiles lies inside the game window (or has no tile);
    otherwise it raises [ValueError], and then [setup_game_window] builds
    no playfield and leaves the dirty list as it was. *)
Theorem create_playfield_tiles_fits cfg game_window img (rects : Rectlist) :
  (0 < width img)%Z -> (0 < height img)%Z ->
  coordinates_fit cfg img ->
  (grid_fits cfg game_window img <->
   exists tiles, create_playfield_tiles cfg game_window img = inr tiles) /\
  (~ grid_fits cfg game_window img ->
   create_playfield_tiles cfg game_window img = inl ValueError /\
   setup_game_window cfg game_window img rects = Playfield.Failed ValueError rects).
Proof.
  intros Hw Hh Hfit. split; [split|].
  - intros Hfits. eexists. by apply create_playfield_tiles_inside.
  - intros [tiles Htiles]. destruct (decide (grid_fits cfg game_window img)) as [|Hn]; [done|].
    rewrite create_playfield_tiles_outside in Htiles by done. done.
  - intros Hn. unfold setup_game_window.
    rewrite create_playfield_tiles_outside by done. done.
Qed.

Lemma create_playfield_tiles_fits_witness :
  (exists tiles,
     create_playfield_tiles default_config default_window Example.tile_img = inr tiles) /\
  create_playfield_tiles default_config default_window large_img = inl ValueError /\
  setup_game_window default_config default_window large_img Rectlist.init =
    Playfield.Failed ValueError Rectlist.init.
Proof.
  split.
  - destruct (create_playfield_tiles_fits default_config default_window Example.tile_img
                Rectlist.init) as [[Hfits _] _].
    + reflexivity.
    + reflexivity.
    + right. right. vm_compute. repeat split; discriminate.
    + apply Hfits. right. right. vm_compute. repeat split; discriminate.
  - destruct (create_playfield_tiles_fits default_config default_window large_img
                Rectlist.init) as [_ Hout].
    + reflexivity.
    + reflexivity.
    + right. right. vm_compute. repeat split; discriminate.
    + apply Hout. intros [Hr|[Hc|(_ & _ & _ & Hh)]];
        [by vm_compute in Hr | by vm_compute in Hc | by vm_compute in Hh].
Defined.

(** X5.  With a tile image of positive size and tile coordinates that
    are C ints, the tiles [create_playfield_tiles] yields are new (empty
    hold), one per cell in row-major order; the tile of row [y] and
    column [x] was made from the rectangle of that cell, [x] tile widths
    and [y] tile heights from the configured position, and covers it;
    and the rectangles of two different cells never overlap. *)
Theorem created_tiles_tile_the_grid cfg game_window img (tiles : list Tile) :
  (0 < width img)%Z -> (0 < height img)%Z ->
  coordinates_fit cfg img ->
  create_playfield_tiles cfg game_window img = inr tiles ->
  length tiles = Z.to_nat (playfield_rows cfg) * Z.to_nat (playfield_columns cfg) /\
  (forall y x, y < Z.to_nat (playfield_rows cfg) -> x < Z.to_nat (playfield_columns cfg) ->
     exists t, tiles !! (y * Z.to_nat (playfield_columns cfg) + x) = Some t /\
               hold t = [] /\
               tile_rect cfg img y x = inr (cell_rect cfg img y x) /\
               Tile.get_rect t = move (cell_rect cfg img y x) (abs_offset game_window)) /\
  (forall y x y' x', (y, x) <> (y', x') ->
     ~ overlap (cell_rect cfg img y x) (cell_rect cfg img y' x')).
Proof.
  intros Hw Hh Hfit Htiles.
  destruct (decide (grid_fits cfg game_window img)) as [Hfits|Hn];
    [|by rewrite create_playfield_tiles_outside in Htiles].
  rewrite create_playfield_tiles_inside in Htiles by done.
  injection Htiles as <-.
  split; [by rewrite length_fmap, cells_length|]. split.
  - intros y x Hy Hx. eexists. rewrite list_lookup_fmap, cells_lookup by done. simpl.
    split; [done|]. split; [done|]. split.
    + apply (tile_rect_fits cfg img (y, x) Hw Hh Hfit). by apply cells_elem.
    + unfold Tile.get_rect, move, pygame.get_rect, get_abs_offset; simpl. f_equal; lia.
  - intros y x y' x' Hne (H1 & H2 & H3 & H4). unfold cell_rect in *; simpl in *.
    apply Hne. assert (x = x') by nia. assert (y = y') by nia. by subst.
Qed.

Lemma created_tiles_tile_the_grid_witness :
  length Example.tiles =
    Z.to_nat (playfield_rows default_config) * Z.to_nat (playfield_columns default_config) /\
  (forall y x, y < Z.to_nat (playfield_rows default_config) ->
               x < Z.to_nat (playfield_columns default_config) ->
     exists t, Example.tiles !! (y * Z.to_nat (playfield_columns default_config) + x) = Some t /\
               hold t = [] /\
               tile_rect default_config Example.tile_img y x =
                 inr (cell_rect default_config Example.tile_img y x) /\
               Tile.get_rect t =
                 move (cell_rect default_config Example.tile_img y x) (abs_offset default_window)) /\
  (forall y x y' x', (y, x) <> (y', x') ->
     ~ overlap (cell_rect default_config Example.tile_img y x)
               (cell_rect default_config Example.tile_img y' x')).
Proof.
  apply (created_tiles_tile_the_grid default_config default_window Example.tile_img
           Example.tiles).
  - reflexivity.
  - reflexivity.
  - right. right. vm_compute. repeat split; discriminate.
  - vm_compute. reflexivity.
Defined.

(** The rectangle a blit of an image of positive size reports on a tile
    of that size is the rectangle of the tile. *)
Lemma rect_blyt_same_size img (s : Surface) :
  (0 < width img)%Z -> (0 < height img)%Z ->
  width s = width img -> height s = height img ->
  rect_blyt img (Tile.init s) = Tile.get_rect (Tile.init s).
Proof.
  intros Hw Hh Hsw Hsh.
  unfold rect_blyt, Tile.get_rect, blit, pygame.get_rect; simpl.
  rewrite Hsw, Hsh, !Z.min_id.
  destruct (Z.leb_spec (width img) 0); [lia|].
  destruct (Z.leb_spec (height img) 0); [lia|]. done.
Qed.

Lemma appendr_each_init (rs : list Rect) :
  Rectlist.appendr_each rs Rectlist.init = mkRectlist rs (length rs) (length rs).
Proof. destruct rs as [|r rs]; [done|]. by rewrite appendr_each_eq. Qed.

(** X6.  When the grid of tiles lies inside the window, the tile image
    has a positive size, the tile coordinates are C ints, the configured
    dimensions are not negative and numpy can hold an array of that
    shape, [setup_game_window] always constructs the playfield, of the
    configured shape and spawn anchor: the tile count can never mismatch.
    Every tile then holds the background image alone and reports empty,
    and the dirty list, new before, holds exactly the rectangles of the
    tiles, [Tile.get_rect], in row-major order, with both counters at the
    number of tiles. *)
Theorem setup_game_window_constructs cfg game_window img :
  (0 < width img)%Z -> (0 < height img)%Z ->
  coordinates_fit cfg img ->
  (0 <= playfield_rows cfg)%Z -> (0 <= playfield_columns cfg)%Z ->
  fits_array (playfield_rows cfg) (playfield_columns cfg) ->
  grid_fits cfg game_window img ->
  exists self,
    setup_game_window cfg game_window img Rectlist.init = Playfield.Constructed self /\
    shape (tile_array self) =
      (Z.to_nat (playfield_rows cfg), Z.to_nat (playfield_columns cfg)) /\
    spawn_row self = playfield_spawn_row cfg /\
    spawn_column self = playfield_spawn_column cfg /\
    Forall (fun t => hold t = [img] /\ Tile.is_empty t = true) (data (tile_array self)) /\
    items (rects_to_update self) = Tile.get_rect <$> data (tile_array self) /\
    added_items (rects_to_update self) = length (data (tile_array self)) /\
    max_items (rects_to_update self) = length (data (tile_array self)).
Proof.
  intros Hw Hh Hfit Hr Hc Harray Hfits. unfold setup_game_window.
  rewrite create_playfield_tiles_inside by done.
  set (tiles := _ <$> cells _ _).
  assert (Z.of_nat (length tiles) = (playfield_rows cfg * playfield_columns cfg)%Z) as Hlen.
  { unfold tiles. rewrite length_fmap, cells_length. lia. }
  eexists. split; [by apply init_ok|]. simpl.
  rewrite appendr_each_init. simpl. rewrite !length_fmap.
  split; [done|]. split; [done|]. split; [done|]. split; [|split; [|done]].
  - apply Forall_fmap, Forall_fmap, Forall_forall. intros c _. by simpl.
  - unfold tiles. rewrite <- !list_fmap_compose. apply list_fmap_ext.
    intros i c _. simpl. by apply rect_blyt_same_size.
Qed.

Lemma setup_game_window_constructs_witness :
  exists self,
    setup_game_window default_config default_window Example.tile_img Rectlist.init =
      Playfield.Constructed self /\
    shape (tile_array self) =
      (Z.to_nat (playfield_rows default_config), Z.to_nat (playfield_columns default_config)) /\
    spawn_row self = playfield_spawn_row default_config /\
    spawn_column self = playfield_spawn_column default_config /\
    Forall (fun t => hold t = [Example.tile_img] /\ Tile.is_empty t = true)
           (data (tile_array self)) /\
    items (rects_to_update self) = Tile.get_rect <$> data (tile_array self) /\
    added_items (rects_to_update self) = length (data (tile_array self)) /\
    max_items (rects_to_update self) = length (data (tile_array self)).
Proof.
  apply (setup_game_window_constructs default_config default_window Example.tile_img).
  - reflexivity.
  - reflexivity.
  - right. right. vm_compute. repeat split; discriminate.
  - simpl. lia.
  - simpl. lia.
  - unfold fits_array, itemsize, intp_max. simpl. lia.
  - right. right. simpl. lia.
Defined.

End SetupFacts.

(** ** More on blits, pieces and clears *)

Section BlitFacts.

Import Playfield.

Implicit Types (self : Playfield) (t : Tile) (srf : Surface).




Lemma for_app {A} (xs ys : list A) (body : A -> M unit) self :
  for_ (xs ++ ys) body self =
  match for_ xs body self with
  | Val _ self' => for_ ys body self'
  | Exc e self' => Exc e self'
  end.
Proof.
  revert self. induction xs as [|x xs IH]; intros self; simpl; [done|].
  unfold mbind, M_bind. destruct (body x self) as [[] s|e s]; [apply IH | done].
Qed.

(** X8.  [draw_tetromino] is not all or nothing: when a mino's cell is
    refused for its index, the call raises [IndexError] with the minoes
    before it already blitted, each with its rectangle in the dirty list,
    and none of the minoes after it drawn. *)
Theorem draw_tetromino_stops_midway self (tetromino : Tetromino) (ms1 ms2 : list Mino)
    (m : Mino) :
  wf (tile_array self) ->
  minoes tetromino = ms1 ++ m :: ms2 ->
  Forall (fun mino => is_Some (flat_index (tile_array self)
                                 (mino_row self tetromino mino) (mino_column self mino))) ms1 ->
  flat_index (tile_array self) (mino_row self tetromino m) (mino_column self m) = None ->
  exists self1,
    draw_tetromino (mkTetromino ms1 (spawn_offset tetromino) (img tetromino)) self =
      Val tt self1 /\
    draw_tetromino tetromino self = Exc IndexError self1 /\
    Rectlist.len (rects_to_update self1) = Rectlist.len (rects_to_update self) + length ms1 /\
    added_items (rects_to_update self1) = added_items (rects_to_update self) + length ms1.
Proof.
  intros Hwf Hms Hms1 Hm.
  set (idx := fun mino => default 0 (flat_index (tile_array self)
                (mino_row self tetromino mino) (mino_column self mino))).
  set (ps := (fun mino => (idx mino, img tetromino)) <$> ms1).
  assert (for_ ms1 (fun mino => blyt (mino_column self mino) (mino_row self tetromino mino)
                                  (img tetromino)) self =
          Val tt (foldl blyt_cell self ps)) as Hfirst.
  { apply (for_blyt ms1 (mino_column self) (mino_row self tetromino)
             (fun _ => img tetromino) idx self Hwf).
    eapply Forall_impl; [exact Hms1|]. intros mino [i Hi]. unfold idx. by rewrite Hi. }
  exists (foldl blyt_cell self ps). split; [exact Hfirst|]. split.
  - unfold draw_tetromino. rewrite Hms.
    change (for_ (ms1 ++ m :: ms2)
              (fun mino => blyt (mino_column self mino) (mino_row self tetromino mino)
                             (img tetromino)) self = Exc IndexError (foldl blyt_cell self ps)).
    rewrite for_app, Hfirst. simpl. apply bind_exc. apply blyt_raises.
    by rewrite (same_grid_flat_index _ _ _ _ (foldl_blyt_cell_same_grid self ps)).
  - rewrite foldl_blyt_rects.
    destruct (appendr_each_len_added (omap (rect_at self) ps) (rects_to_update self))
      as [Hitems Hadded].
    assert (length (omap (rect_at self) ps) = length ms1) as Hlen.
    { assert (Forall (fun p => is_Some (rect_at self p)) ps) as Hsome.
      { apply Forall_fmap. eapply Forall_impl; [exact Hms1|]. intros mino [i Hi]. simpl.
        unfold rect_at, idx; simpl. rewrite Hi; simpl.
        destruct (lookup_lt_is_Some_2 (data (tile_array self)) i) as [t Ht];
          [by eapply flat_index_lt | by rewrite Ht]. }
      apply omap_all_Some, Forall2_length in Hsome. rewrite <- Hsome.
      unfold ps. by rewrite length_fmap. }
    unfold Rectlist.len. rewrite Hitems, Hadded, length_app, Hlen. done.
Qed.

Lemma draw_tetromino_stops_midway_witness :
  exists self1,
    draw_tetromino
      (mkTetromino [mkMino 0 0]
         (spawn_offset (mkTetromino [mkMino 0 0; mkMino 0 6; mkMino 0 1] 0 Example.piece_img))
         (img (mkTetromino [mkMino 0 0; mkMino 0 6; mkMino 0 1] 0 Example.piece_img)))
      Example.pf = Val tt self1 /\
    draw_tetromino (mkTetromino [mkMino 0 0; mkMino 0 6; mkMino 0 1] 0 Example.piece_img)
      Example.pf = Exc IndexError self1 /\
    Rectlist.len (rects_to_update self1) =
      Rectlist.len (rects_to_update Example.pf) + length [mkMino 0 0] /\
    added_items (rects_to_update self1) =
      added_items (rects_to_update Example.pf) + length [mkMino 0 0].
Proof.
  apply (draw_tetromino_stops_midway Example.pf
           (mkTetromino [mkMino 0 0; mkMino 0 6; mkMino 0 1] 0 Example.piece_img)
           [mkMino 0 0] [mkMino 0 1] (mkMino 0 6)).
  - vm_compute. reflexivity.
  - reflexivity.
  - repeat constructor. vm_compute. eexists. reflexivity.
  - vm_compute. reflexivity.
Defined.

Lemma filter_length_pos {A} (P : A -> Prop) `{!forall x, Decision (P x)} (l : list A) :
  0 < length (filter P l) <-> Exists P l.
Proof.
  induction l as [|x l IH].
  - simpl. split; [lia | by inversion 1].
  - rewrite filter_cons, Exists_cons. case_decide; simpl.
    + split; [by left | lia].
    + rewrite IH. split; [by right | by intros [|]].
Qed.

(** The tiles after a piece was drawn inside the grid. *)
Lemma draw_tetromino_tiles self (tetromino : Tetromino) :
  wf (tile_array self) ->
  Forall (fun mino => in_grid self (mino_row self tetromino mino) (mino_column self mino))
         (minoes tetromino) ->
  exists self',
    draw_tetromino tetromino self = Val tt self' /\
    forall r c, in_grid self r c ->
      exists t, tile_at self r c = Some t /\
        tile_at self' r c =
        Some (mkTile (surface t)
                (hold t ++ replicate (minoes_at self tetromino r c) (img tetromino))).
Proof.
  intros Hwf Hin.
  set (cols := (shape (tile_array self)).2).
  set (idx := fun mino => Z.to_nat (mino_row self tetromino mino) * cols +
                          Z.to_nat (mino_column self mino)).
  set (ps := (fun mino => (idx mino, img tetromino)) <$> minoes tetromino).
  exists (foldl blyt_cell self ps). split.
  - apply (for_blyt (minoes tetromino) (mino_column self) (mino_row self tetromino)
             (fun _ => img tetromino) idx self Hwf).
    eapply Forall_impl; [exact Hin|]. intros mino Hm. by apply flat_index_in_grid.
  - intros r c Hrc.
    destruct (tile_at_in_grid self r c Hwf Hrc) as [t Ht].
    exists t. split; [done|]. unfold tile_at in *.
    rewrite (same_grid_flat_index _ _ _ _ (foldl_blyt_cell_same_grid self ps)).
    rewrite flat_index_in_grid in * by done. simpl in *.
    rewrite (foldl_blyt_lookup ps self _ t Ht). do 3 f_equal.
    apply (blits_on_cell (minoes tetromino) (mino_row self tetromino) (mino_column self));
      done.
Qed.

(** X9.  On a playfield whose tiles each hold one entry, as after
    construction and after [clear_all_tiles], drawing a piece that lies
    inside the grid makes [is_empty()] false on exactly the cells of its
    minoes: a tile reports occupied if and only if a mino landed on it. *)
Theorem occupied_exactly_under_piece self (tetromino : Tetromino) :
  wf (tile_array self) ->
  Forall (fun t => length (hold t) = 1) (data (tile_array self)) ->
  Forall (fun mino => in_grid self (mino_row self tetromino mino) (mino_column self mino))
         (minoes tetromino) ->
  exists self',
    draw_tetromino tetromino self = Val tt self' /\
    forall r c, in_grid self r c ->
      exists t', tile_at self' r c = Some t' /\
        (Tile.is_empty t' = false <->
         Exists (fun mino => mino_row self tetromino mino = r /\ mino_column self mino = c)
                (minoes tetromino)).
Proof.
  intros Hwf Hone Hin.
  destruct (draw_tetromino_tiles self tetromino Hwf Hin) as (self' & Hdraw & Htiles).
  exists self'. split; [done|]. intros r c Hrc.
  destruct (Htiles r c Hrc) as (t & Ht & Ht'). eexists. split; [exact Ht'|].
  assert (length (hold t) = 1) as Hlen.
  { unfold tile_at in Ht. destruct (flat_index _ _ _) as [i|]; [|done]. simpl in Ht.
    by eapply (Forall_lookup_1 _ _ _ _ Hone). }
  assert (0 < minoes_at self tetromino r c <->
          Exists (fun mino => mino_row self tetromino mino = r /\ mino_column self mino = c)
                 (minoes tetromino)) as <-
    by (unfold minoes_at; apply filter_length_pos).
  rewrite is_empty_false_length. simpl.
  rewrite length_app, length_replicate, Hlen. lia.
Qed.

Lemma occupied_exactly_under_piece_witness :
  exists self',
    draw_tetromino (Tetromino_I Example.piece_img) Example.pf = Val tt self' /\
    forall r c, in_grid Example.pf r c ->
      exists t', tile_at self' r c = Some t' /\
        (Tile.is_empty t' = false <->
         Exists (fun mino => mino_row Example.pf (Tetromino_I Example.piece_img) mino = r /\
                             mino_column Example.pf mino = c)
                (minoes (Tetromino_I Example.piece_img))).
Proof.
  apply (occupied_exactly_under_piece Example.pf (Tetromino_I Example.piece_img)).
  - vm_compute. reflexivity.
  - vm_compute. repeat constructor.
  - repeat constructor; vm_compute; discriminate.
Defined.

(** *** What no operation changes *)

Lemma surfaces_alter (f : Tile -> Tile) (l : list Tile) (i : nat) :
  (forall t, surface (f t) = surface t) ->
  surface <$> alter f i l = surface <$> l.
Proof.
  intros Hf. rewrite (list_fmap_alter surface f id).
  - by apply list_alter_id.
  - apply Forall_forall. intros t _. apply Hf.
Qed.

Lemma cell_step_surfaces (f : Tile -> Tile) g self i :
  (forall t, surface (f t) = surface t) ->
  surfaces (cell_step f g self i) = surfaces self.
Proof.
  intros Hf. unfold surfaces, cell_step.
  destruct (data (tile_array self) !! i); simpl; [by apply surfaces_alter | done].
Qed.

(** The frame of a playfield: its grid dimensions, background image,
    spawn anchor and the surfaces of its tiles. *)
Lemma blyt_frame column row srf self :
  same_grid self (state_of (blyt column row srf self)) /\
  surfaces (state_of (blyt column row srf self)) = surfaces self.
Proof.
  destruct (blyt_state column row srf self) as [->|[i ->]].
  - split; [apply same_grid_refl | done].
  - split; [apply cell_step_same_grid | by apply cell_step_surfaces].
Qed.

Lemma exec_frame (o : op) self :
  wf (tile_array self) ->
  same_grid self (exec o self) /\ surfaces (exec o self) = surfaces self.
Proof.
  intros Hwf. destruct o as [column row srf| |tetromino|r| |]; simpl.
  - apply blyt_frame.
  - rewrite clear_all_tiles_eq by done. simpl. split.
    + repeat split; simpl. by rewrite length_fmap.
    + unfold surfaces; simpl. rewrite <- list_fmap_compose. apply list_fmap_ext.
      intros i t _. simpl. unfold tile_clear. by destruct (Tile.is_empty t).
  - unfold draw_tetromino.
    apply (for_state (fun s => same_grid self s /\ surfaces s = surfaces self)).
    + intros mino s [Hgrid Hsurf]. destruct (blyt_frame
        (spawn_column self + column mino) (spawn_row self + row mino + spawn_offset tetromino)
        (img tetromino) s) as [Hg Hs].
      split; [by eapply same_grid_trans | congruence].
    + split; [apply same_grid_refl | done].
  - split; [by repeat split | done].
  - unfold Game.drain. rewrite drain_eq. simpl. split; [by repeat split | done].
  - split; [by repeat split | done].
Qed.

Lemma exec_all_frame (os : list op) self :
  all_tiles stamped self ->
  all_tiles stamped (exec_all os self) /\
  same_grid self (exec_all os self) /\
  surfaces (exec_all os self) = surfaces self.
Proof.
  revert self. induction os as [|o os IH]; intros self Hinv.
  - split; [done|]. split; [apply same_grid_refl | done].
  - change (exec_all (o :: os) self) with (exec_all os (exec o self)).
    destruct (exec_frame o self) as [Hgrid Hsurf]; [by destruct Hinv|].
    destruct (IH (exec o self)) as (Hinv' & Hgrid' & Hsurf').
    { by apply (all_tiles_exec stamped stamped_blyt stamped_clear). }
    split; [done|]. split; [by eapply same_grid_trans | congruence].
Qed.

Lemma tiles_of_surfaces (srf : Surface) (l : list Tile) :
  Forall (fun t => hold t = [srf]) l ->
  l = (fun s => mkTile s [srf]) <$> (surface <$> l).
Proof.
  induction 1 as [|t l Ht _ IH]; [done|].
  rewrite !fmap_cons, <- IH. f_equal. destruct t; simpl in *. by subst.
Qed.

(** X10.  [clear_all_tiles] undoes every blit: on a playfield built from
    new tiles, after any run of blits, pieces drawn, clears and uses of
    the dirty list, raised or not, a clear leaves the grid of tiles
    exactly as construction left it, every tile on its surface with the
    background as its only entry. *)
Theorem clear_restores_construction (rows columns : Z) (sequence : list Tile)
    (srf : Surface) (rects : Rectlist) (sr sc : Z) (self0 : Playfield) (os : list op) :
  Forall (fun t => hold t = []) sequence ->
  Playfield.init rows columns sequence srf rects sr sc = Playfield.Constructed self0 ->
  exists self',
    clear_all_tiles (exec_all os self0) = Val tt self' /\
    tile_array self' = tile_array self0 /\
    Forall (fun t => hold t = [srf]) (data (tile_array self0)).
Proof.
  intros Hnew Hinit.
  assert (reachable self0) as Hreach by (by eapply reachable_init).
  pose proof (reachable_all_tiles stamped stamped_init stamped_blyt stamped_clear self0 Hreach)
    as Hinv0.
  apply init_constructed in Hinit as (a & Ha & Hself0).
  assert (empty_tile_img self0 = srf) as Himg0 by (by subst self0).
  assert (Forall (fun t => hold t = [srf]) (data (tile_array self0))) as Hholds0.
  { subst self0; simpl. apply Forall_fmap. eapply Forall_impl; [exact Hnew|].
    intros t Ht. simpl. by rewrite Ht. }
  destruct (exec_all_frame os self0 Hinv0) as ([Hwf Hst] & Hgrid & Hsurf).
  destruct Hgrid as (Hshape & _ & Himg & _).
  rewrite clear_all_tiles_eq by done.
  eexists. split; [reflexivity|]. split; [|done]. simpl.
  rewrite Hshape. destruct (tile_array self0) as [sh dat] eqn:Harr; simpl in *. f_equal.
  rewrite (tiles_of_surfaces srf dat) by done.
  rewrite (tiles_of_surfaces srf (tile_clear _ <$> _)).
  - f_equal. rewrite <- list_fmap_compose.
    unfold surfaces in Hsurf. rewrite Harr in Hsurf; simpl in Hsurf. rewrite <- Hsurf.
    apply list_fmap_ext. intros i t _. simpl. unfold tile_clear.
    by destruct (Tile.is_empty t).
  - apply Forall_fmap. eapply Forall_impl; [exact Hst|].
    intros t Ht. simpl. rewrite Himg, Himg0. rewrite Himg, Himg0 in Ht.
    by apply tile_clear_stamped.
Qed.

Lemma clear_restores_construction_witness :
  exists self',
    clear_all_tiles
      (exec_all [OpDraw (Tetromino_I Example.piece_img); OpBlyt 0 0 Example.piece_img]
         Example.pf) = Val tt self' /\
    tile_array self' = tile_array Example.pf /\
    Forall (fun t => hold t = [Example.tile_img]) (data (tile_array Example.pf)).
Proof.
  apply (clear_restores_construction 24 10 Example.tiles Example.tile_img Rectlist.init 3 4
           Example.pf
           [OpDraw (Tetromino_I Example.piece_img); OpBlyt 0 0 Example.piece_img]).
  - vm_compute. repeat constructor.
  - vm_compute. reflexivity.
Defined.

End BlitFacts.

(** ** The main loop *)

Section LoopFacts.

Import Loop.

Implicit Types (tet : tetrominoes) (s : state) (ev : event) (evs : list event).

Lemma exec_all_app (os1 os2 : list op) (self : Playfield) :
  exec_all (os1 ++ os2) self = exec_all os2 (exec_all os1 self).
Proof. apply foldl_app. Qed.

Lemma call_exec (m : M unit) (o : op) s :
  state_of (m (pf s)) = exec o (pf s) ->
  pf (state_of_step (call m s)) = exec_all [o] (pf s).
Proof.
  unfold call. destruct (m (pf s)) as [[] p|e p]; simpl; by intros ->.
Qed.

(** What an event does to the playfield is a run of at most one of the
    operations of [exec]. *)
Lemma handle_event_exec tet ev s :
  exists os, pf (state_of_step (handle_event tet ev s)) = exec_all os (pf s).
Proof.
  destruct ev as [|k ctrl| |]; unfold handle_event.
  - by exists [].
  - destruct k.
    + destruct ctrl; [by exists []|].
      exists [OpClear]. by apply (call_exec _ OpClear).
    + destruct (generator.spawn_next (unpacker s)) as [n u].
      destruct (mapping tet n) as [tetromino|]; [|by exists []].
      exists [OpDraw tetromino].
      by apply (call_exec _ (OpDraw tetromino) (mkState (pf s) u (pygame_running s))).
    + exists [OpDraw (new_I tet)]. by apply (call_exec _ (OpDraw _)).
    + exists [OpDraw (new_J tet)]. by apply (call_exec _ (OpDraw _)).
    + exists [OpDraw (new_L tet)]. by apply (call_exec _ (OpDraw _)).
    + exists [OpDraw (new_O tet)]. by apply (call_exec _ (OpDraw _)).
    + exists [OpDraw (new_S tet)]. by apply (call_exec _ (OpDraw _)).
    + exists [OpDraw (new_T tet)]. by apply (call_exec _ (OpDraw _)).
    + exists [OpDraw (new_Z tet)]. by apply (call_exec _ (OpDraw _)).
    + by exists [].
  - exists [OpTick]. by apply (call_exec _ OpTick).
  - by exists [].
Qed.

Lemma handle_events_exec tet evs s :
  exists os, pf (state_of_step (handle_events tet evs s)) = exec_all os (pf s).
Proof.
  revert s. induction evs as [|ev evs IH]; intros s; simpl; [by exists []|].
  destruct (handle_event_exec tet ev s) as [os1 H1].
  destruct (handle_event tet ev s) as [s'|s'|e s'] eqn:Hev; simpl in *;
    [|by exists os1|by exists os1].
  destruct (IH s') as [os2 H2]. exists (os1 ++ os2). by rewrite exec_all_app, <- H1.
Qed.

Lemma frame_exec tet evs s :
  exists os, pf (state_of_step (frame tet evs s)) = exec_all os (pf s).
Proof.
  unfold frame.
  assert (state_of (Game.drain (pf s)) = exec OpDrain (pf s)) as Hdrain by done.
  destruct (Game.drain (pf s)) as [shown p|e p]; simpl in *.
  - destruct (handle_events_exec tet evs (set_pf p s)) as [os Hos].
    exists (OpDrain :: os). rewrite Hos. simpl. by rewrite Hdrain.
  - exists [OpDrain]. by rewrite Hdrain.
Qed.

Lemma run_frames_exec tet (batches : list (list event)) s :
  exists os, pf (state_of_outcome (run_frames tet batches s)) = exec_all os (pf s).
Proof.
  revert s. induction batches as [|evs batches IH]; intros s; simpl.
  - destruct (pygame_running s); by exists [].
  - destruct (pygame_running s); [|by exists []].
    destruct (frame_exec tet evs s) as [os1 H1].
    destruct (frame tet evs s) as [s'|s'|e s'] eqn:Hframe; simpl in *.
    + destruct (IH s') as [os2 H2]. exists (os1 ++ os2). by rewrite exec_all_app, <- H1.
    + destruct (IH s') as [os2 H2]. exists (os1 ++ os2). by rewrite exec_all_app, <- H1.
    + by exists os1.
Qed.

Lemma reachable_exec_all (os : list op) (self : Playfield) :
  reachable self -> reachable (exec_all os self).
Proof.
  revert self. induction os as [|o os IH]; intros self Hreach; [done|].
  apply IH. by apply reachable_exec.
Qed.

Lemma stamped_has_entry (bg : Surface) (t : Tile) : stamped bg t -> hold t <> [].
Proof. intros [Ht|Ht]; destruct (hold t); simpl in *; (done || lia). Qed.

Lemma start_inr cfg game_window img text_w text_h source s :
  start cfg game_window img text_w text_h source = inr s ->
  exists sequence p,
    Setup.create_playfield_tiles cfg game_window img = inr sequence /\
    Playfield.init (Setup.playfield_rows cfg) (Setup.playfield_columns cfg) sequence img
      Rectlist.init (Setup.playfield_spawn_row cfg) (Setup.playfield_spawn_column cfg) =
      Playfield.Constructed p /\
    s = mkState (exec (OpAppendr (mkRect 40 350 text_w text_h)) p)
          (generator.mkUnpacker generator.no_rules 7 source) true.
Proof.
  unfold start, Setup.setup_game_window.
  destruct (Setup.create_playfield_tiles cfg game_window img) as [e|sequence]; [done|].
  destruct (Playfield.init _ _ _ _ _ _ _) as [p|e r] eqn:Hinit; [|done].
  simpl. intros [= <-]. by exists sequence, p.
Qed.

(** X11.  Throughout a session, whatever events arrive and however the
    loop ends, quit, exception or still running, the playfield keeps the
    grid dimensions, background image, spawn anchor and tile surfaces it
    was set up with, and no tile's hold is ever empty. *)
Theorem session_keeps_grid cfg game_window img (text_w text_h : Z)
    (source : generator.RandomSource) s tet (batches : list (list event)) :
  start cfg game_window img text_w text_h source = inr s ->
  same_grid (pf s) (pf (state_of_outcome (run_frames tet batches s))) /\
  surfaces (pf (state_of_outcome (run_frames tet batches s))) = surfaces (pf s) /\
  wf (tile_array (pf (state_of_outcome (run_frames tet batches s)))) /\
  Forall (fun t => hold t <> [])
         (data (tile_array (pf (state_of_outcome (run_frames tet batches s))))) /\
  reachable (pf (state_of_outcome (run_frames tet batches s))).
Proof.
  intros Hstart. apply start_inr in Hstart as (sequence & p & _ & Hinit & ->).
  assert (reachable (exec (OpAppendr (mkRect 40 350 text_w text_h)) p)) as Hreach.
  { apply reachable_exec. by eapply reachable_init. }
  set (s := mkState _ _ _) in *.
  destruct (run_frames_exec tet batches s) as [os ->].
  change (pf s) with (exec (OpAppendr (mkRect 40 350 text_w text_h)) p) in *.
  pose proof (reachable_all_tiles stamped stamped_init stamped_blyt stamped_clear _ Hreach)
    as Hinv.
  destruct (exec_all_frame os _ Hinv) as ([Hwf Hst] & Hgrid & Hsurf).
  split; [done|]. split; [done|]. split; [done|]. split.
  - eapply Forall_impl; [exact Hst|]. intros t. apply stamped_has_entry.
  - by apply reachable_exec_all.
Qed.

Lemma session_keeps_grid_witness :
  same_grid (pf Session.s0)
    (pf (state_of_outcome
           (run_frames Session.pieces
              [[KEYDOWN K_KP1 false; TICK]; [KEYDOWN K_n false; KEYDOWN K_q false]; [QUIT]]
              Session.s0))) /\
  surfaces (pf (state_of_outcome
           (run_frames Session.pieces
              [[KEYDOWN K_KP1 false; TICK]; [KEYDOWN K_n false; KEYDOWN K_q false]; [QUIT]]
              Session.s0))) = surfaces (pf Session.s0) /\
  wf (tile_array (pf (state_of_outcome
           (run_frames Session.pieces
              [[KEYDOWN K_KP1 false; TICK]; [KEYDOWN K_n false; KEYDOWN K_q false]; [QUIT]]
              Session.s0)))) /\
  Forall (fun t => hold t <> [])
         (data (tile_array (pf (state_of_outcome
           (run_frames Session.pieces
              [[KEYDOWN K_KP1 false; TICK]; [KEYDOWN K_n false; KEYDOWN K_q false]; [QUIT]]
              Session.s0))))) /\
  reachable (pf (state_of_outcome
           (run_frames Session.pieces
              [[KEYDOWN K_KP1 false; TICK]; [KEYDOWN K_n false; KEYDOWN K_q false]; [QUIT]]
              Session.s0))).
Proof.
  apply (session_keeps_grid Setup.default_config Setup.default_window Example.tile_img
           200 20 Session.source Session.s0 Session.pieces
           [[KEYDOWN K_KP1 false; TICK]; [KEYDOWN K_n false; KEYDOWN K_q false]; [QUIT]]).
  vm_compute. reflexivity.
Defined.

(** *** Leaving the loop *)

Lemma call_not_break (m : M unit) s s' : call m s <> Break s'.
Proof. unfold call. by destruct (m (pf s)). Qed.

(** The body of the loop breaks on the quit events and on no other. *)
Lemma handle_event_break tet ev s :
  (is_quit ev = true -> handle_event tet ev s = Break (stop s)) /\
  (is_quit ev = false -> forall s', handle_event tet ev s <> Break s').
Proof.
  split.
  - destruct ev as [|[] []| |]; done.
  - intros Hq s'. destruct ev as [|k ctrl| |]; unfold handle_event.
    + done.
    + destruct k; first
        [ apply call_not_break
        | done
        | destruct ctrl; [done | apply call_not_break]
        | destruct (generator.spawn_next (unpacker s)) as [n u];
          destruct (mapping tet n); [apply call_not_break | done] ].
    + apply call_not_break.
    + done.
Qed.

Lemma handle_events_app tet evs1 evs2 s :
  handle_events tet (evs1 ++ evs2) s =
  match handle_events tet evs1 s with
  | Next s' => handle_events tet evs2 s'
  | r => r
  end.
Proof.
  revert s. induction evs1 as [|ev evs1 IH]; intros s; simpl; [done|].
  destruct (handle_event tet ev s); [apply IH | done | done].
Qed.

Lemma handle_events_break tet evs s s' :
  handle_events tet evs s = Break s' ->
  pygame_running s' = false /\ Exists (fun ev => is_quit ev = true) evs.
Proof.
  revert s. induction evs as [|ev evs IH]; intros s; simpl; [done|].
  destruct (is_quit ev) eqn:Hq.
  - rewrite (proj1 (handle_event_break tet ev s) Hq). intros [= <-].
    split; [done | by left].
  - destruct (handle_event tet ev s) as [s1|s1|e s1] eqn:Hev.
    + intros Hrest. destruct (IH _ Hrest) as [? ?]. split; [done | by right].
    + by destruct (proj2 (handle_event_break tet ev s) Hq s1).
    + done.
Qed.

(** X12.  The loop is left by closing the window and by Ctrl+Q, and by
    nothing else short of an exception.  At such an event the remaining
    events of the batch are dropped unhandled, [pygame_running] is
    cleared and no further frame runs; a batch without one, a plain Q
    included, never breaks the loop. *)
Theorem quit_event_ends_loop tet (evs1 evs2 : list event) (q : event)
    (rest : list (list event)) s :
  is_quit q = true ->
  handle_events tet (evs1 ++ q :: evs2) s = handle_events tet (evs1 ++ [q]) s /\
  (forall s', handle_events tet (evs1 ++ q :: evs2) s <> Next s') /\
  run_frames tet ((evs1 ++ q :: evs2) :: rest) s = run_frames tet [evs1 ++ [q]] s /\
  (forall s', run_frames tet ((evs1 ++ q :: evs2) :: rest) s <> Running s') /\
  (forall evs s0 s', Forall (fun ev => is_quit ev = false) evs ->
     handle_events tet evs s0 <> Break s').
Proof.
  intros Hq.
  assert (forall evs s0, handle_events tet (evs1 ++ q :: evs) s0 =
            match handle_events tet evs1 s0 with
            | Next s' => Break (stop s')
            | r => r
            end) as Hcut.
  { intros evs s0. rewrite handle_events_app.
    destruct (handle_events tet evs1 s0) as [s1| |]; [|done|done].
    simpl. by rewrite (proj1 (handle_event_break tet q s1) Hq). }
  assert (forall s0, frame tet (evs1 ++ q :: evs2) s0 = frame tet (evs1 ++ [q]) s0) as Hframe.
  { intros s0. unfold frame. destruct (Game.drain (pf s0)); [|done]. by rewrite !Hcut. }
  assert (forall s0 s', frame tet (evs1 ++ [q]) s0 = Break s' -> pygame_running s' = false)
    as Hstop.
  { intros s0 s'. unfold frame. destruct (Game.drain (pf s0)); [|done].
    intros Hb. by apply handle_events_break in Hb as [? _]. }
  assert (forall s0 s', frame tet (evs1 ++ [q]) s0 <> Next s') as Hnext.
  { intros s0 s'. unfold frame. destruct (Game.drain (pf s0)); [|done].
    rewrite Hcut. by destruct (handle_events tet evs1 _). }
  assert (forall l s', pygame_running s' = false -> run_frames tet l s' = Quit s') as Hquit.
  { intros [|? ?] s' Hs'; simpl; by rewrite Hs'. }
  split; [by rewrite !Hcut|]. split.
  { intros s'. rewrite Hcut. by destruct (handle_events tet evs1 s). }
  split; [|split].
  - simpl. destruct (pygame_running s); [|done]. rewrite Hframe.
    destruct (frame tet (evs1 ++ [q]) s) as [s'|s'|e s'] eqn:Hf.
    + by destruct (Hnext s s').
    + pose proof (Hstop _ _ Hf) as Hs'. rewrite Hquit by done. by rewrite Hs'.
    + done.
  - intros s'. simpl. destruct (pygame_running s); [|done]. rewrite Hframe.
    destruct (frame tet (evs1 ++ [q]) s) as [s1|s1|e s1] eqn:Hf.
    + by destruct (Hnext s s1).
    + pose proof (Hstop _ _ Hf) as Hs1. by rewrite Hquit.
    + done.
  - intros evs s0 s' Hnone Hb. apply handle_events_break in Hb as [_ Hex].
    apply Exists_exists in Hex as (ev & Hin & Hev).
    rewrite Forall_forall in Hnone. specialize (Hnone ev Hin). congruence.
Qed.

Lemma quit_event_ends_loop_witness :
  handle_events Session.pieces ([KEYDOWN K_q false] ++ KEYDOWN K_q true :: [KEYDOWN K_KP1 false])
    Session.s0 =
    handle_events Session.pieces ([KEYDOWN K_q false] ++ [KEYDOWN K_q true]) Session.s0 /\
  (forall s',
     handle_events Session.pieces
       ([KEYDOWN K_q false] ++ KEYDOWN K_q true :: [KEYDOWN K_KP1 false]) Session.s0 <>
     Next s') /\
  run_frames Session.pieces
    (([KEYDOWN K_q false] ++ KEYDOWN K_q true :: [KEYDOWN K_KP1 false]) :: [[TICK]])
    Session.s0 =
    run_frames Session.pieces [[KEYDOWN K_q false] ++ [KEYDOWN K_q true]] Session.s0 /\
  (forall s',
     run_frames Session.pieces
       (([KEYDOWN K_q false] ++ KEYDOWN K_q true :: [KEYDOWN K_KP1 false]) :: [[TICK]])
       Session.s0 <> Running s') /\
  (forall evs s0 s', Forall (fun ev => is_quit ev = false) evs ->
     handle_events Session.pieces evs s0 <> Break s').
Proof.
  apply (quit_event_ends_loop Session.pieces [KEYDOWN K_q false] [KEYDOWN K_KP1 false]
           (KEYDOWN K_q true) [[TICK]] Session.s0).
  reflexivity.
Defined.

(** X13.  When the grid fits the window, the tile image has a positive
    size, the tile coordinates are C ints, the configured dimensions are
    not negative and numpy can hold an array of that shape, [run_game]
    reaches its loop with exactly one rectangle per tile pending, in
    row-major order, followed by the rectangle of the greeting at
    (40, 350); the first frame hands all of them to the display and
    empties the list, while both counters stay at the number of tiles
    plus one. *)
Theorem first_frame_shows_everything cfg game_window img (text_w text_h : Z)
    (source : generator.RandomSource) tet :
  (0 < width img)%Z -> (0 < height img)%Z ->
  Setup.coordinates_fit cfg img ->
  (0 <= Setup.playfield_rows cfg)%Z ->
  (0 <= Setup.playfield_columns cfg)%Z ->
  fits_array (Setup.playfield_rows cfg) (Setup.playfield_columns cfg) ->
  Setup.grid_fits cfg game_window img ->
  exists s p,
    start cfg game_window img text_w text_h source = inr s /\
    pygame_running s = true /\
    items (rects_to_update (pf s)) =
      (Tile.get_rect <$> data (tile_array (pf s))) ++ [mkRect 40 350 text_w text_h] /\
    Game.drain (pf s) = Val (items (rects_to_update (pf s))) p /\
    frame tet [] s = Next (set_pf p s) /\
    items (rects_to_update p) = [] /\
    tile_array p = tile_array (pf s) /\
    added_items (rects_to_update p) = S (length (data (tile_array (pf s)))) /\
    max_items (rects_to_update p) = S (length (data (tile_array (pf s)))).
Proof.
  intros Hw Hh Hfit Hr Hc Harray Hfits. unfold start, Setup.setup_game_window.
  rewrite create_playfield_tiles_inside by done.
  set (tiles := _ <$> Setup.cells _ _).
  assert (Z.of_nat (length tiles) =
          (Setup.playfield_rows cfg * Setup.playfield_columns cfg)%Z) as Hlen.
  { unfold tiles. rewrite length_fmap, cells_length. lia. }
  rewrite init_ok by done. rewrite appendr_each_init.
  assert (rect_blyt img <$> tiles = Tile.get_rect <$> (tile_blyt img <$> tiles)) as Hrects.
  { unfold tiles. rewrite <- !list_fmap_compose. apply list_fmap_ext.
    intros i c _. simpl. by apply rect_blyt_same_size. }
  eexists _, _. split; [reflexivity|]. simpl. split; [done|].
  rewrite appendr_eq. simpl. rewrite Hrects. split; [done|].
  unfold frame, Game.drain. simpl. rewrite drain_eq. simpl.
  split; [reflexivity|]. split; [reflexivity|]. simpl.
  unfold Rectlist.len; simpl. rewrite !length_fmap.
  split; [done|]. split; [done|]. split; lia.
Qed.

Lemma first_frame_shows_everything_witness :
  exists s p,
    start Setup.default_config Setup.default_window Example.tile_img 200 20 Session.source =
      inr s /\
    pygame_running s = true /\
    items (rects_to_update (pf s)) =
      (Tile.get_rect <$> data (tile_array (pf s))) ++ [mkRect 40 350 200 20] /\
    Game.drain (pf s) = Val (items (rects_to_update (pf s))) p /\
    frame Session.pieces [] s = Next (set_pf p s) /\
    items (rects_to_update p) = [] /\
    tile_array p = tile_array (pf s) /\
    added_items (rects_to_update p) = S (length (data (tile_array (pf s)))) /\
    max_items (rects_to_update p) = S (length (data (tile_array (pf s)))).
Proof.
  apply (first_frame_shows_everything Setup.default_config Setup.default_window
           Example.tile_img 200 20 Session.source Session.pieces).
  - reflexivity.
  - reflexivity.
  - right. right. vm_compute. repeat split; discriminate.
  - simpl. lia.
  - simpl. lia.
  - unfold fits_array, itemsize, intp_max. simpl. lia.
  - right. right. simpl. lia.
Defined.

End LoopFacts.

(** ** The game of [absolutris/game.py] *)

Section GuiGameFacts.

Import GuiGame.

Lemma leaves_is_quit (ev : Loop.event) : leaves ev = Loop.is_quit ev.
Proof. by destruct ev as [|[] []| |]. Qed.

Lemma asks_mods_eq (ev : Loop.event) :
  asks_mods ev =
  replicate (length (filter (fun ev => q_press ev = true) [ev])) key_get_mods.
Proof.
  unfold asks_mods. rewrite filter_cons, filter_nil.
  destruct (decide (q_press ev = true)) as [->|Hn]; [done|].
  by destruct (q_press ev).
Qed.

Lemma handled_cons (ev : Loop.event) (evs : list Loop.event) :
  handled (ev :: evs) = if Loop.is_quit ev then [ev] else ev :: handled evs.
Proof.
  unfold handled. simpl.
  destruct (decide (Loop.is_quit ev = true)) as [->|Hn]; [by rewrite take_0|].
  destruct (Loop.is_quit ev); [done|].
  by destruct (list_find _ evs) as [[i x]|].
Qed.

Lemma events_loop_eq (evs : list Loop.event) :
  events_loop evs =
  (replicate (q_presses evs) key_get_mods, negb (bool_decide (quitting evs))).
Proof.
  unfold q_presses, quitting. induction evs as [|ev evs IH].
  - rewrite bool_decide_eq_false_2; [done | by inversion 1].
  - cbn [events_loop]. rewrite handled_cons, leaves_is_quit. destruct (Loop.is_quit ev) eqn:Hquit.
    + rewrite asks_mods_eq. f_equal.
      rewrite bool_decide_eq_true_2; [done | by left].
    + rewrite IH, asks_mods_eq, <- replicate_add, <- length_app.
      rewrite <- filter_app. simpl. f_equal. f_equal. apply bool_decide_ext.
      rewrite Exists_cons. split; [by right | intros [?|?]; [congruence | done]].
Qed.

Lemma events_loop_quitting (evs : list Loop.event) :
  (events_loop evs).2 = false <-> quitting evs.
Proof.
  rewrite events_loop_eq. simpl. rewrite negb_false_iff. apply bool_decide_eq_true.
Qed.

Lemma join_cons {A} (x : list A) (l : list (list A)) : mjoin (x :: l) = x ++ mjoin l.
Proof. reflexivity. Qed.

Lemma main_loop_eq (batches : list (list Loop.event)) :
  main_loop batches =
  (mjoin (frame_calls <$> take (frames_run batches) batches),
   bool_decide (Exists quitting batches)).
Proof.
  unfold frames_run. induction batches as [|evs batches IH]; [done|].
  cbn [main_loop list_find]. rewrite events_loop_eq.
  destruct (decide (quitting evs)) as [Hq|Hn].
  - rewrite (bool_decide_eq_true_2 (quitting evs)) by done. cbn [negb take].
    rewrite take_0, fmap_cons, fmap_nil, join_cons, app_nil_r.
    unfold frame_calls. f_equal.
    symmetry. apply bool_decide_eq_true. by left.
  - rewrite (bool_decide_eq_false_2 (quitting evs)) by done. cbn [negb].
    rewrite IH.
    assert (bool_decide (Exists quitting batches) =
            bool_decide (Exists quitting (evs :: batches))) as ->.
    { apply bool_decide_ext. rewrite Exists_cons. tauto. }
    destruct (list_find quitting batches) as [[i x]|]; cbn [fmap option_fmap option_map prod_map fst snd id].
    + rewrite firstn_cons, fmap_cons, join_cons. done.
    + cbn [length]. rewrite firstn_cons, fmap_cons, join_cons. done.
Qed.

Lemma frames_run_le (batches : list (list Loop.event)) :
  frames_run batches <= length batches.
Proof.
  unfold frames_run. destruct (list_find quitting batches) as [[i x]|] eqn:Hfind; [|done].
  apply list_find_Some in Hfind as (Hi & _). apply lookup_lt_Some in Hi. lia.
Qed.

Lemma polls_of_frames (l : list (list Loop.event)) :
  filter (fun call => call <> key_get_mods) (mjoin (frame_calls <$> l)) =
  replicate (length l) event_get.
Proof.
  induction l as [|evs l IH]; [done|].
  rewrite fmap_cons, join_cons, filter_app, IH. unfold frame_calls.
  rewrite filter_cons_True by done. simpl. f_equal.
  induction (q_presses evs) as [|n IHn]; [done|].
  simpl. by rewrite filter_cons_False by (intros H; by apply H).
Qed.

(** X14.  [run(config)] touches pygame only for a gui it knows.  Without
    a gui it does nothing; for a name other than "default", "debug" and
    "m" it raises [GuiNotImplemented], naming it, before any pygame call;
    otherwise it initialises pygame, sets the window up, and frame by
    frame, up to and including the first frame that holds a window close
    or a Ctrl+Q, polls the events once and asks for the key modifiers
    once per press of Q it handles, the quitting Ctrl+Q included and the
    events behind it left out; then it calls [pygame.quit()], once and
    last, and only if such a frame came.  The modifier queries taken out,
    the calls are the set-up, one poll per frame run and the quit. *)
Theorem run_touches_pygame (cli_gui : option string) (batches : list (list Loop.event)) :
  run cli_gui batches =
  match cli_gui with
  | None => NoGui
  | Some name =>
      if bool_decide (name ∈ ["default"; "debug"; "m"])
      then Ran ([pygame_init; set_caption; set_mode; fill] ++
                mjoin (frame_calls <$> take (frames_run batches) batches) ++
                (if bool_decide (Exists quitting batches) then [pygame_quit] else []))
               (bool_decide (Exists quitting batches))
      else Refused (GuiNotImplemented
                      ("Cannot find any instance of " +:+ quote +:+ name +:+ quote +:+
                       " in gui.py"))
  end /\
  match run cli_gui batches with
  | Ran calls finished =>
      filter (fun call => call <> key_get_mods) calls =
      [pygame_init; set_caption; set_mode; fill] ++
      replicate (frames_run batches) event_get ++
      (if finished then [pygame_quit] else [])
  | _ => True
  end.
Proof.
  assert (forall name,
            run (Some name) batches =
            if bool_decide (name ∈ ["default"; "debug"; "m"])
            then Ran ([pygame_init; set_caption; set_mode; fill] ++
                      mjoin (frame_calls <$> take (frames_run batches) batches) ++
                      (if bool_decide (Exists quitting batches) then [pygame_quit] else []))
                     (bool_decide (Exists quitting batches))
            else Refused (GuiNotImplemented
                            ("Cannot find any instance of " +:+ quote +:+ name +:+ quote +:+
                             " in gui.py"))) as Hrun.
  { intros name. unfold run, init, run_gui. rewrite main_loop_eq.
    destruct (String.eqb_spec name "default") as [->|H1]; [done|].
    destruct (String.eqb_spec name "debug") as [->|H2]; [done|].
    destruct (String.eqb_spec name "m") as [->|H3]; [done|].
    rewrite bool_decide_eq_false_2; [done|].
    rewrite !elem_of_cons, elem_of_nil. tauto. }
  split.
  - destruct cli_gui as [name|]; [apply Hrun | done].
  - destruct cli_gui as [name|]; [|done]. rewrite Hrun.
    destruct (bool_decide (name ∈ _)); [|done].
    rewrite (filter_app _ [pygame_init; set_caption; set_mode; fill]).
    rewrite (filter_app _ (mjoin _)), polls_of_frames.
    rewrite length_take, Nat.min_l by apply frames_run_le.
    f_equal. f_equal. by destruct (bool_decide (Exists quitting batches)).
Qed.

Lemma run_touches_pygame_witness :
  run (Some "default")
    [[Loop.KEYDOWN Loop.K_q false; Loop.TICK];
     [Loop.KEYDOWN Loop.K_q false; Loop.KEYDOWN Loop.K_q true; Loop.KEYDOWN Loop.K_q false];
     [Loop.TICK]] =
  Ran [pygame_init; set_caption; set_mode; fill;
       event_get; key_get_mods;
       event_get; key_get_mods; key_get_mods;
       pygame_quit] true.
Proof.
  rewrite (proj1 (run_touches_pygame (Some "default")
    [[Loop.KEYDOWN Loop.K_q false; Loop.TICK];
     [Loop.KEYDOWN Loop.K_q false; Loop.KEYDOWN Loop.K_q true; Loop.KEYDOWN Loop.K_q false];
     [Loop.TICK]])).
  vm_compute. reflexivity.
Defined.

End GuiGameFacts.

(** ** The checks of the gui test *)

Section TestGuiFacts.

Import TestGui.

Lemma assert_passed (b : bool) (rest : verdict) :
  assert b rest = Passed -> b = true /\ rest = Passed.
Proof. by destruct b. Qed.

Lemma assert_mod_passed (a b m : Z) (rest : verdict) :
  assert_mod a b m rest = Passed -> b <> 0%Z /\ (a mod b = m)%Z /\ rest = Passed.
Proof.
  unfold assert_mod. destruct (Z.eqb_spec b 0); [done|].
  intros [Hm ?]%assert_passed. by apply Z.eqb_eq in Hm.
Qed.

Lemma in_range_true (x n : Z) : in_range x n = true -> (0 <= x <= n)%Z.
Proof. unfold in_range. intros [? ?]%andb_true_iff. lia. Qed.

(** X15.  A gui instance that passes [test_gui_instances] has a window
    that lies on an 8K screen and names the game in its title, a
    playfield of at least 4 by 4 minoes whose pixels fit inside the
    window, hence on the screen, a window of at least 4 by 4 pixels that
    is a whole number of pixels wide and high, and pixel and mino sizes
    of at least 1; the test passes only if every instance does, and an
    instance with a pixel size of 0 never passes. *)
Theorem passed_gui_fits_screen (flags_ok : Z -> bool) (guis : list Gui) :
  test_gui_instances flags_ok guis = Passed ->
  Forall (fun gi =>
    (0 <= game_window_x_pos gi /\ 0 <= game_window_y_pos gi /\
     game_window_x_pos gi + game_window_width gi <= 7680 /\
     game_window_y_pos gi + game_window_height gi <= 4320 /\
     4 <= playfield_width gi /\ 4 <= playfield_height gi /\
     1 <= pixel_width gi /\ 1 <= pixel_height gi /\
     1 <= mino_width gi /\ 1 <= mino_height gi /\
     4 <= playfield_width gi * pixel_width gi * mino_width gi <= game_window_width gi /\
     4 <= playfield_height gi * pixel_height gi * mino_height gi <= game_window_height gi /\
     game_window_x_pos gi + playfield_width gi * pixel_width gi * mino_width gi <= 7680 /\
     game_window_y_pos gi + playfield_height gi * pixel_height gi * mino_height gi <= 4320 /\
     (pixel_width gi | game_window_width gi) /\
     (pixel_height gi | game_window_height gi))%Z /\
    names_game (game_window_title gi) = true /\
    flags_ok (flags gi) = true) guis /\
  (forall gi, pixel_width gi = 0%Z \/ pixel_height gi = 0%Z ->
     check_instance flags_ok gi <> Passed).
Proof.
  assert (forall gi, check_instance flags_ok gi = Passed ->
    (0 <= game_window_x_pos gi /\ 0 <= game_window_y_pos gi /\
     game_window_x_pos gi + game_window_width gi <= 7680 /\
     game_window_y_pos gi + game_window_height gi <= 4320 /\
     4 <= playfield_width gi /\ 4 <= playfield_height gi /\
     1 <= pixel_width gi /\ 1 <= pixel_height gi /\
     1 <= mino_width gi /\ 1 <= mino_height gi /\
     4 <= playfield_width gi * pixel_width gi * mino_width gi <= game_window_width gi /\
     4 <= playfield_height gi * pixel_height gi * mino_height gi <= game_window_height gi /\
     game_window_x_pos gi + playfield_width gi * pixel_width gi * mino_width gi <= 7680 /\
     game_window_y_pos gi + playfield_height gi * pixel_height gi * mino_height gi <= 4320 /\
     (pixel_width gi | game_window_width gi) /\
     (pixel_height gi | game_window_height gi))%Z /\
    names_game (game_window_title gi) = true /\
    flags_ok (flags gi) = true) as Hone.
  { intros gi. unfold check_instance.
    intros (Hx%in_range_true & H)%assert_passed. apply assert_passed in H as (Hy%in_range_true & H).
    apply assert_passed in H as (Htitle & H).
    apply assert_passed in H as (Hw%in_range_true & H).
    apply assert_passed in H as (Hh%in_range_true & H).
    apply assert_passed in H as (Hxw%in_range_true & H).
    apply assert_passed in H as (Hyh%in_range_true & H).
    apply assert_passed in H as (Hflags & H).
    apply assert_mod_passed in H as (Hpw0 & Hmodw & H).
    apply assert_mod_passed in H as (Hph0 & Hmodh & H).
    apply assert_passed in H as (Hfh%Z.leb_le & H).
    apply assert_passed in H as (Hfw%Z.leb_le & H).
    apply assert_passed in H as (Hfitw%Z.leb_le & H).
    apply assert_passed in H as (Hfith%Z.leb_le & H).
    apply assert_passed in H as (Hpw%Z.leb_le & H).
    apply assert_passed in H as (Hph%Z.leb_le & H).
    apply assert_passed in H as (Hmw%Z.leb_le & H).
    apply assert_passed in H as (Hmh%Z.leb_le & _).
    split; [|done].
    assert (4 <= playfield_width gi * pixel_width gi * mino_width gi)%Z by nia.
    assert (4 <= playfield_height gi * pixel_height gi * mino_height gi)%Z by nia.
    repeat split; try lia.
    - by apply Z.mod_divide.
    - by apply Z.mod_divide. }
  intros Hpassed. split.
  - induction guis as [|gi guis IH]; [constructor|]. simpl in Hpassed.
    destruct (check_instance flags_ok gi) eqn:Hgi; [|done|done].
    constructor; [by apply Hone | by apply IH].
  - intros gi Hzero Hgi. apply Hone in Hgi. lia.
Qed.

Lemma passed_gui_fits_screen_witness :
  Forall (fun gi =>
    (0 <= game_window_x_pos gi /\ 0 <= game_window_y_pos gi /\
     game_window_x_pos gi + game_window_width gi <= 7680 /\
     game_window_y_pos gi + game_window_height gi <= 4320 /\
     4 <= playfield_width gi /\ 4 <= playfield_height gi /\
     1 <= pixel_width gi /\ 1 <= pixel_height gi /\
     1 <= mino_width gi /\ 1 <= mino_height gi /\
     4 <= playfield_width gi * pixel_width gi * mino_width gi <= game_window_width gi /\
     4 <= playfield_height gi * pixel_height gi * mino_height gi <= game_window_height gi /\
     game_window_x_pos gi + playfield_width gi * pixel_width gi * mino_width gi <= 7680 /\
     game_window_y_pos gi + playfield_height gi * pixel_height gi * mino_height gi <= 4320 /\
     (pixel_width gi | game_window_width gi) /\
     (pixel_height gi | game_window_height gi))%Z /\
    names_game (game_window_title gi) = true /\
    (fun _ : Z => true) (flags gi) = true) [example_gui] /\
  (forall gi, pixel_width gi = 0%Z \/ pixel_height gi = 0%Z ->
     check_instance (fun _ => true) gi <> Passed).
Proof.
  apply (passed_gui_fits_screen (fun _ => true) [example_gui]).
  vm_compute. reflexivity.
Defined.

End TestGuiFacts.

(** ** Clears and blits, once more *)

Section ClearFacts.

Import Playfield.

Implicit Types (self : Playfield) (t : Tile) (srf bg : Surface).

Lemma foldl_rects_clear bg (l : list Tile) (rects : Rectlist) :
  foldl (fun rects t => rects_clear bg t rects) rects l =
  Rectlist.appendr_each (rect_blyt bg <$> filter (fun t => Tile.is_empty t = false) l) rects.
Proof.
  revert rects. induction l as [|t l IH]; intros rects; [done|].
  simpl. rewrite IH, filter_cons. unfold rects_clear.
  destruct (Tile.is_empty t); [by rewrite decide_False | by rewrite decide_True].
Qed.

(** X16.  [clear_all_tiles] redraws the occupied tiles and no other: it
    appends to the dirty list one rectangle per tile whose [is_empty()]
    is false, in row-major order, resets those tiles to the background,
    and leaves every empty tile as it is; on a playfield with no occupied
    tile it changes nothing at all. *)
Theorem clear_redraws_occupied self :
  wf (tile_array self) ->
  exists self',
    clear_all_tiles self = Val tt self' /\
    data (tile_array self') = tile_clear (empty_tile_img self) <$> data (tile_array self) /\
    items (rects_to_update self') =
      items (rects_to_update self) ++
      (rect_blyt (empty_tile_img self)
         <$> filter (fun t => Tile.is_empty t = false) (data (tile_array self))) /\
    added_items (rects_to_update self') =
      added_items (rects_to_update self) +
      length (filter (fun t => Tile.is_empty t = false) (data (tile_array self))) /\
    (forall t, Tile.is_empty t = true -> tile_clear (empty_tile_img self) t = t) /\
    (Forall (fun t => Tile.is_empty t = true) (data (tile_array self)) -> self' = self).
Proof.
  intros Hwf. rewrite clear_all_tiles_eq by done. eexists. split; [reflexivity|].
  simpl. split; [done|]. rewrite foldl_rects_clear.
  destruct (appendr_each_len_added
              (rect_blyt (empty_tile_img self)
                 <$> filter (fun t => Tile.is_empty t = false) (data (tile_array self)))
              (rects_to_update self)) as [-> ->].
  split; [done|]. split; [by rewrite length_fmap|]. split.
  - intros t Ht. unfold tile_clear. by rewrite Ht.
  - intros Hall. rewrite <- foldl_rects_clear.
    destruct (clear_unoccupied (empty_tile_img self) (data (tile_array self))
                (rects_to_update self) Hall) as [-> ->].
    apply set_cells_id.
Qed.

Lemma clear_redraws_occupied_witness :
  exists self',
    clear_all_tiles Example.pf_I = Val tt self' /\
    data (tile_array self') =
      tile_clear (empty_tile_img Example.pf_I) <$> data (tile_array Example.pf_I) /\
    items (rects_to_update self') =
      items (rects_to_update Example.pf_I) ++
      (rect_blyt (empty_tile_img Example.pf_I)
         <$> filter (fun t => Tile.is_empty t = false) (data (tile_array Example.pf_I))) /\
    added_items (rects_to_update self') =
      added_items (rects_to_update Example.pf_I) +
      length (filter (fun t => Tile.is_empty t = false) (data (tile_array Example.pf_I))) /\
    (forall t, Tile.is_empty t = true -> tile_clear (empty_tile_img Example.pf_I) t = t) /\
    (Forall (fun t => Tile.is_empty t = true) (data (tile_array Example.pf_I)) ->
     self' = Example.pf_I).
Proof.
  apply (clear_redraws_occupied Example.pf_I). vm_compute. reflexivity.
Defined.

(** X17.  Two blits on different tiles can be made in either order: the
    grid of tiles and both counters end the same, and the dirty list
    holds the same rectangles, in the order of the blits. *)
Theorem blits_on_different_tiles_commute self (column1 row1 column2 row2 : Z) srf1 srf2
    (i j : nat) :
  wf (tile_array self) ->
  flat_index (tile_array self) row1 column1 = Some i ->
  flat_index (tile_array self) row2 column2 = Some j ->
  i <> j ->
  exists s1 s12 s2 s21 r1 r2,
    blyt column1 row1 srf1 self = Val tt s1 /\ blyt column2 row2 srf2 s1 = Val tt s12 /\
    blyt column2 row2 srf2 self = Val tt s2 /\ blyt column1 row1 srf1 s2 = Val tt s21 /\
    tile_array s12 = tile_array s21 /\
    items (rects_to_update s12) = items (rects_to_update self) ++ [r1; r2] /\
    items (rects_to_update s21) = items (rects_to_update self) ++ [r2; r1] /\
    added_items (rects_to_update s12) = added_items (rects_to_update s21) /\
    max_items (rects_to_update s12) = max_items (rects_to_update s21).
Proof.
  intros Hwf Hi Hj Hne.
  pose proof (flat_index_lt _ _ _ _ Hwf Hi) as Hilt.
  pose proof (flat_index_lt _ _ _ _ Hwf Hj) as Hjlt.
  destruct (lookup_lt_is_Some_2 _ _ Hilt) as [ti Hti].
  destruct (lookup_lt_is_Some_2 _ _ Hjlt) as [tj Htj].
  assert (forall (f : Tile -> Tile) g k, shape (tile_array (cell_step f g self k)) =
            shape (tile_array self)) as Hshape.
  { intros f g k. by destruct (cell_step_same_grid f g self k) as (? & _). }
  exists (blyt_cell self (i, srf1)), (blyt_cell (blyt_cell self (i, srf1)) (j, srf2)),
         (blyt_cell self (j, srf2)), (blyt_cell (blyt_cell self (j, srf2)) (i, srf1)),
         (rect_blyt srf1 ti), (rect_blyt srf2 tj).
  assert (data (tile_array (blyt_cell self (i, srf1))) !! j = Some tj) as Htj1.
  { rewrite (blyt_cell_lookup self (i, srf1) j tj Htj). simpl. by rewrite decide_False. }
  assert (data (tile_array (blyt_cell self (j, srf2))) !! i = Some ti) as Hti2.
  { rewrite (blyt_cell_lookup self (j, srf2) i ti Hti). simpl.
    rewrite decide_False; [done | congruence]. }
  split; [by apply blyt_ok|]. split.
  { apply blyt_ok; [|by eapply lookup_lt_Some].
    unfold flat_index, blyt_cell. by rewrite Hshape. }
  split; [by apply blyt_ok|]. split.
  { apply blyt_ok; [|by eapply lookup_lt_Some].
    unfold flat_index, blyt_cell. by rewrite Hshape. }
  assert (forall s k srf t, data (tile_array s) !! k = Some t ->
            blyt_cell s (k, srf) =
            set_cells (alter (tile_blyt srf) k (data (tile_array s)))
              (Rectlist.appendr (rect_blyt srf t) (rects_to_update s)) s) as Hcell.
  { intros s k srf t Ht. unfold blyt_cell, cell_step. cbn [fst snd]. by rewrite Ht. }
  rewrite (Hcell _ j srf2 tj Htj1), (Hcell _ i srf1 ti Hti2).
  rewrite (Hcell _ i srf1 ti Hti), (Hcell _ j srf2 tj Htj).
  unfold set_cells. simpl.
  rewrite !appendr_eq. simpl. unfold Rectlist.len. simpl.
  rewrite !length_app. simpl. rewrite <- !app_assoc. simpl.
  split; [f_equal; apply list_alter_alter_ne; congruence|].
  split; [done|]. split; [done|]. split; lia.
Qed.

Lemma blits_on_different_tiles_commute_witness :
  exists s1 s12 s2 s21 r1 r2,
    blyt 4 3 Example.piece_img Example.pf = Val tt s1 /\
    blyt (-1) 0 Example.tile_img s1 = Val tt s12 /\
    blyt (-1) 0 Example.tile_img Example.pf = Val tt s2 /\
    blyt 4 3 Example.piece_img s2 = Val tt s21 /\
    tile_array s12 = tile_array s21 /\
    items (rects_to_update s12) = items (rects_to_update Example.pf) ++ [r1; r2] /\
    items (rects_to_update s21) = items (rects_to_update Example.pf) ++ [r2; r1] /\
    added_items (rects_to_update s12) = added_items (rects_to_update s21) /\
    max_items (rects_to_update s12) = max_items (rects_to_update s21).
Proof.
  apply (blits_on_different_tiles_commute Example.pf 4 3 (-1) 0
           Example.piece_img Example.tile_img 34 9).
  - vm_compute. reflexivity.
  - vm_compute. reflexivity.
  - vm_compute. reflexivity.
  - discriminate.
Defined.

End ClearFacts.
